(** * The mailroom data model (mailroom/model.py)

    A shallow embedding of [Donor] and [DonorDB] and of the Python
    operations they rest on, followed by the properties of the donor
    store, the snapshot file, the thank-you letter and the donor report.

    Conventions of the embedding.
    - A donation amount is a Python [float], an IEEE binary64 number: the
      kernel's primitive [float], with its own addition, division and
      comparisons. An amount written as an integer, such as 100, is taken
      as the float equal to it, which the formats print alike.
    - A [dict] is an association list in insertion order with pairwise
      different keys; assigning to a key that is present keeps its place.
    - [Donor] objects live in a heap and are named by references, so the
      object [add_donor] returns is the object the mapping holds. Python
      has no reference without its object; the model raises
      ReferenceError on one, and the statements about a collection take
      its references to be live ([DB_live]).
    - A snapshot file is the JSON document it holds: [json.dump] and
      [json.load] are the library's and keep an object of arrays of
      floats as it is. Files of another content are outside the model.
    - The exact value of a finite float is an integer number of units of
      2^-1074 ([scaled_value]); sums of floats are compared with the
      exact sums of these integers.
    - A Python exception is a [Raise] result.
    - The [logging] calls only observe; they are left out. *)

From Stdlib Require Import ZArith List String Ascii Bool Lia Floats.
From Stdlib Require Import DecimalString Permutation Sorted.
Import ListNotations.

Local Open Scope list_scope.

(* ================================================================== *)
(** ** Exceptions and results *)

Inductive exn : Type :=
| ZeroDivisionError
| TypeError
| IndexError
| FileNotFoundError
| PermissionError
| ReferenceError.

Inductive result (A : Type) : Type :=
| Ok (a : A)
| Raise (e : exn).

Arguments Ok {A} a.
Arguments Raise {A} e.

Definition bind {A B : Type} (c : result A) (k : A -> result B) : result B :=
  match c with
  | Ok a => k a
  | Raise e => Raise e
  end.

Notation "x <- c ;; k" := (bind c (fun x => k))
  (at level 61, c at next level, right associativity).

(** [for x in l: acc = body(acc, x)], stopping at the first exception. *)
Fixpoint for_each {A S : Type} (body : S -> A -> result S) (l : list A) (acc : S)
  : result S :=
  match l with
  | [] => Ok acc
  | x :: rest => acc' <- body acc x ;; for_each body rest acc'
  end.

(* ================================================================== *)
(** ** Python numbers *)

Module Py.

(** [float(n)] for a length [n]: the nearest binary64 number. *)
Definition float_of_nat (n : nat) : float :=
  SF2Prim (binary_normalize prec emax (Z.of_nat n) 0 false).

(** [sum(l)]: the items added from left to right to the start value 0,
    which the first addition converts to [0.0]. *)
Definition sum (l : list float) : float :=
  fold_left PrimFloat.add l 0%float.

(** [x / n] for a float (or the integer 0 that [sum] gives for no items)
    and an integer [n]: division by zero raises. *)
Definition truediv (x : float) (n : nat) : result float :=
  match n with
  | O => Raise ZeroDivisionError
  | S _ => Ok (PrimFloat.div x (float_of_nat n))
  end.

(** [l[-1]] *)
Definition last_item {A : Type} (l : list A) : result A :=
  match rev l with
  | [] => Raise IndexError
  | x :: _ => Ok x
  end.

(** [sorted(l)] under the items' [<]: a stable sort. The items are
    inserted from left to right, each after every item it is not less
    than. On items that [<] orders (no NaN among floats) every stable
    sort returns this list, and so does Python's. With a NaN among the
    keys [<] is no order and Python's merge sort can return the items
    in another arrangement (the keys 2.0, nan, 1.0 it leaves as they
    are; inserting gives 1.0, 2.0, nan): this definition is [sorted]
    for keys that are numbers only, and every statement about the order
    of the report takes the totals to be numbers. *)
Fixpoint insert_sorted {A : Type} (lt : A -> A -> bool) (x : A) (l : list A)
  : list A :=
  match l with
  | [] => [x]
  | y :: rest => if lt x y then x :: l else y :: insert_sorted lt x rest
  end.

Definition sorted {A : Type} (lt : A -> A -> bool) (l : list A) : list A :=
  fold_left (fun acc x => insert_sorted lt x acc) l [].

(** [s * n] *)
Fixpoint repeat_string (s : string) (n : nat) : string :=
  match n with
  | O => EmptyString
  | S k => (s ++ repeat_string s k)%string
  end.

End Py.

(* ================================================================== *)
(** ** The format specifications the templates use *)

Module Fmt.

Definition LF : string := String "010"%char EmptyString.

Definition spaces (n : nat) : string := Py.repeat_string " " n.

(** Fill with spaces on the right up to [w] characters (align [<]). *)
Definition ljust (w : nat) (s : string) : string :=
  (s ++ spaces (w - String.length s))%string.

(** Fill with spaces on the left up to [w] characters (the alignment of
    numbers when none is given). *)
Definition rjust (w : nat) (s : string) : string :=
  (spaces (w - String.length s) ++ s)%string.

Definition decimal (n : Z) : string :=
  NilZero.string_of_uint (N.to_uint (Z.to_N n)).

(** [s] with zeros in front up to [w] characters. *)
Definition zfill (w : nat) (s : string) : string :=
  (Py.repeat_string "0" (w - String.length s) ++ s)%string.

(** [num / den] rounded to the nearest integer, a tie to the even one
    ([0 <= num], [0 < den]). *)
Definition round_half_even (num den : Z) : Z :=
  let q := (num / den)%Z in
  let r := (num mod den)%Z in
  match (2 * r ?= den)%Z with
  | Lt => q
  | Gt => (q + 1)%Z
  | Eq => if Z.even q then q else (q + 1)%Z
  end.

(** [m * 2^e * 10^p] rounded to an integer: the digits of the number
    written with [p] places after the point. *)
Definition scaled_digits (p : nat) (m : positive) (e : Z) : Z :=
  let scaled := (Zpos m * 10 ^ Z.of_nat p)%Z in
  if (0 <=? e)%Z then (scaled * 2 ^ e)%Z
  else round_half_even scaled (2 ^ (- e)).

Definition fixed_point (p : nat) (digits : Z) : string :=
  let unit := (10 ^ Z.of_nat p)%Z in
  match p with
  | O => decimal digits
  | S _ => (decimal (digits / unit) ++ "." ++ zfill p (decimal (digits mod unit)))%string
  end.

(** The sign and the unsigned text of [x] under the type [f] with
    precision [p]. *)
Definition fixed_parts (p : nat) (x : float) : bool * string :=
  match Prim2SF x with
  | S754_nan => (false, "nan"%string)
  | S754_infinity s => (s, "inf"%string)
  | S754_zero s => (s, fixed_point p 0)
  | S754_finite s m e => (s, fixed_point p (scaled_digits p m e))
  end.

(** The sign option of a format specification: none given (only a minus
    sign is written) or a space (a space stands for plus). *)
Inductive sign_option : Type := SignDefault | SignSpace.

Definition sign_text (o : sign_option) (negative : bool) : string :=
  if negative then "-"%string
  else match o with SignDefault => EmptyString | SignSpace => " "%string end.

(** [{:<sign><w>.<p>f}] applied to a float. *)
Definition format_f (o : sign_option) (w p : nat) (x : float) : string :=
  let '(negative, digits) := fixed_parts p x in
  rjust w (sign_text o negative ++ digits).

(** [{:<sign><w>d}] applied to an integer. *)
Definition format_d (o : sign_option) (w : nat) (n : Z) : string :=
  rjust w (sign_text o (n <? 0)%Z ++ decimal (Z.abs n)).

(** [{: <w}] and [{:s}] ([w = 0]) applied to a string. *)
Definition format_s (w : nat) (s : string) : string := ljust w s.

(** A float format applied to [donor.last_donation], which is a float or
    [None]: [None] accepts no format specification. *)
Definition format_f_optional (o : sign_option) (w p : nat) (v : option float)
  : result string :=
  match v with
  | Some x => Ok (format_f o w p x)
  | None => Raise TypeError
  end.

End Fmt.

(* ================================================================== *)
(** ** The templates *)

(** [THANK_YOU_LETTER.format(a0, a1)] *)
Definition THANK_YOU_LETTER (a0 : string) (a1 : option float) : result string :=
  amount <- Fmt.format_f_optional Fmt.SignDefault 0 2 a1 ;;
  Ok (Fmt.LF ++ "Dear " ++ Fmt.format_s 0 a0 ++ "," ++ Fmt.LF
      ++ Fmt.LF
      ++ "Thank you for your donation of $" ++ amount ++ "." ++ Fmt.LF)%string.

(** [REPORT_HEADER.format(donor=.., total=.., num=.., avg=..)] *)
Definition REPORT_HEADER (donor total num avg : string) : string :=
  (Fmt.format_s 50 donor ++ "| " ++ Fmt.format_s 12 total ++ "| "
   ++ Fmt.format_s 10 num ++ "| " ++ Fmt.format_s 12 avg)%string.

(** [REPORT_LINE.format(a0, a1, a2, a3)] *)
Definition REPORT_LINE (a0 : string) (a1 : float) (a2 : nat) (a3 : float) : string :=
  (Fmt.format_s 50 a0 ++ " $" ++ Fmt.format_f Fmt.SignSpace 12 2 a1
   ++ Fmt.format_d Fmt.SignSpace 12 (Z.of_nat a2)
   ++ Fmt.format_f Fmt.SignSpace 14 2 a3)%string.

(* ================================================================== *)
(** ** class Donor *)

Record Donor : Type := mkDonor {
  _donorname : string;
  donations : list float
}.

Module DonorM.

(** [Donor(donor_name, initial_donations=None)]: the list is copied. *)
Definition init (donor_name : string) (initial_donations : option (list float))
  : Donor :=
  let initial_donations :=
    match initial_donations with
    | None => []
    | Some l => l
    end in
  {| _donorname := donor_name; donations := initial_donations |}.

Definition name (self : Donor) : string := _donorname self.

Definition set_name (self : Donor) (donor_name : string) : Donor :=
  {| _donorname := donor_name; donations := donations self |}.

Definition total_donations (self : Donor) : float :=
  Py.sum (donations self).

Definition avg_donations (self : Donor) : result float :=
  Py.truediv (total_donations self) (List.length (donations self)).

Definition num_donations (self : Donor) : nat :=
  List.length (donations self).

(** [try: return self.donations[-1]  except IndexError: return None] *)
Definition last_donation (self : Donor) : result (option float) :=
  match Py.last_item (donations self) with
  | Ok x => Ok (Some x)
  | Raise IndexError => Ok None
  | Raise e => Raise e
  end.

(** [self.donations.append(amount)] *)
Definition add_donation (self : Donor) (amount : float) : Donor :=
  {| _donorname := _donorname self; donations := donations self ++ [amount] |}.

End DonorM.

(* ================================================================== *)
(** ** dict *)

Module Dict.
Section WithKey.
Context {K : Type} (eqb : K -> K -> bool).

(** [d.get(k)] *)
Fixpoint get {V : Type} (d : list (K * V)) (k : K) : option V :=
  match d with
  | [] => None
  | (k', v) :: rest => if eqb k' k then Some v else get rest k
  end.

(** [d[k] = v]: a key that is present keeps its place. *)
Fixpoint set {V : Type} (d : list (K * V)) (k : K) (v : V) : list (K * V) :=
  match d with
  | [] => [(k, v)]
  | (k', v') :: rest =>
      if eqb k' k then (k', v) :: rest else (k', v') :: set rest k v
  end.

(** [d.setdefault(k, []).append(x)] *)
Fixpoint setdefault_append {V : Type} (d : list (K * list V)) (k : K) (x : V)
  : list (K * list V) :=
  match d with
  | [] => [(k, [x])]
  | (k', l) :: rest =>
      if eqb k' k then (k', l ++ [x]) :: rest
      else (k', l) :: setdefault_append rest k x
  end.
End WithKey.

Definition keys {K V : Type} (d : list (K * V)) : list K := map fst d.
Definition values {K V : Type} (d : list (K * V)) : list V := map snd d.

(** [dict(pairs)] *)
Definition of_pairs {K V : Type} (eqb : K -> K -> bool) (pairs : list (K * V))
  : list (K * V) :=
  fold_left (fun d kv => set eqb d (fst kv) (snd kv)) pairs [].

End Dict.

(* ================================================================== *)
(** ** The heap of Donor objects and the files *)

Definition ref : Type := nat.

(** The JSON document of a snapshot file: an object whose members are
    arrays of numbers, in the order of the text. [files] holds a parsed
    document for every file there is. A file of another content is not
    modelled: text that is no JSON (on which [json.load] raises
    JSONDecodeError), JSON of another shape, a file that cannot be
    read. *)
Definition snapshot : Type := list (string * list float).

Record World : Type := mkWorld {
  heap : list Donor;
  files : list (string * snapshot);
  unwritable : list string
}.

Definition load (w : World) (r : ref) : result Donor :=
  match nth_error (heap w) r with
  | Some d => Ok d
  | None => Raise ReferenceError
  end.

Fixpoint replace_nth {A : Type} (l : list A) (n : nat) (x : A) : list A :=
  match l, n with
  | [], _ => []
  | _ :: rest, O => x :: rest
  | y :: rest, S k => y :: replace_nth rest k x
  end.

Definition store (w : World) (r : ref) (d : Donor) : result World :=
  match nth_error (heap w) r with
  | Some _ => Ok {| heap := replace_nth (heap w) r d;
                    files := files w; unwritable := unwritable w |}
  | None => Raise ReferenceError
  end.

(** A new object: its reference and the heap that holds it. *)
Definition alloc (w : World) (d : Donor) : ref * World :=
  (List.length (heap w),
   {| heap := heap w ++ [d]; files := files w; unwritable := unwritable w |}).

(** [Donor(donor_name, initial_donations)] as an object of the heap. *)
Definition new_Donor (w : World) (donor_name : string)
    (initial_donations : option (list float)) : ref * World :=
  alloc w (DonorM.init donor_name initial_donations).

(** [donor.add_donation(amount)] through a reference. *)
Definition add_donation (w : World) (donor : ref) (amount : float) : result World :=
  d <- load w donor ;;
  store w donor (DonorM.add_donation d amount).

(** [donor.name = donor_name] through a reference. *)
Definition set_name (w : World) (donor : ref) (donor_name : string) : result World :=
  d <- load w donor ;;
  store w donor (DonorM.set_name d donor_name).

(** [json.load(infile)]: the members of the object as a dict. *)
Definition json_load (doc : snapshot) : list (string * list float) :=
  Dict.of_pairs String.eqb doc.

(* ================================================================== *)
(** ** class DonorDB *)

Record DonorDB : Type := mkDonorDB {
  donor_data : list (string * ref)
}.

Module DonorDBM.

(** [DonorDB(donors=None)]: [{d.name: d for d in donors}] *)
Definition init (w : World) (donors : option (list ref)) : result DonorDB :=
  let donors :=
    match donors with
    | None => []
    | Some l => l
    end in
  data <- for_each
            (fun acc d =>
               obj <- load w d ;;
               Ok (Dict.set String.eqb acc (DonorM.name obj) d))
            donors [] ;;
  Ok {| donor_data := data |}.

Definition save_to_file (w : World) (self : DonorDB) (filename : string)
  : result World :=
  output <- for_each
              (fun acc kv =>
                 obj <- load w (snd kv) ;;
                 Ok (Dict.set String.eqb acc (fst kv) (donations obj)))
              (donor_data self) [] ;;
  if existsb (String.eqb filename) (unwritable w) then Raise PermissionError
  else Ok {| heap := heap w;
             files := Dict.set String.eqb (files w) filename output;
             unwritable := unwritable w |}.

(** [json.load], then one [Donor] per item of the loaded dict, built from
    the item's key and value, and [cls] on the list of them. Opening a
    name that is no file raises FileNotFoundError; a file is taken to
    hold a snapshot document, so the errors of [json.load] on other
    content do not occur here. *)
Definition load_from_file (w : World) (filename : string)
  : result (DonorDB * World) :=
  match Dict.get String.eqb (files w) filename with
  | None => Raise FileNotFoundError
  | Some doc =>
      let donors := json_load doc in
      let '(objects, w') :=
        fold_left
          (fun st d =>
             let '(r, w1) := new_Donor (snd st) (fst d) (Some (snd d)) in
             (fst st ++ [r], w1))
          donors ([], w) in
      db <- init w' (Some objects) ;;
      Ok (db, w')
  end.

Definition donors (self : DonorDB) : list ref :=
  Dict.values (donor_data self).

Definition get_donor (self : DonorDB) (name : string) : option ref :=
  Dict.get String.eqb (donor_data self) name.

Definition add_donor (w : World) (self : DonorDB) (name : string)
  : ref * DonorDB * World :=
  let '(donor, w') := new_Donor w name None in
  (donor, {| donor_data := Dict.set String.eqb (donor_data self) name donor |}, w').

Definition send_letter (w : World) (donor : ref) : result string :=
  obj <- load w donor ;;
  last <- DonorM.last_donation obj ;;
  THANK_YOU_LETTER (DonorM.name obj) last.

(** The rows of one group of [donor_dict], added to the report. *)
Definition report_group (w : World) (report : string) (group : list ref)
  : result string :=
  for_each
    (fun report donor =>
       obj <- load w donor ;;
       avg <- DonorM.avg_donations obj ;;
       Ok (report
           ++ REPORT_LINE (DonorM.name obj) (DonorM.total_donations obj)
                (DonorM.num_donations obj) avg
           ++ Fmt.LF)%string)
    group report.

(** [donor_dict]: the donors under their totals. *)
Definition group_by_total (w : World) (self : DonorDB)
  : result (list (float * list ref)) :=
  for_each
    (fun donor_dict donor =>
       obj <- load w donor ;;
       Ok (Dict.setdefault_append PrimFloat.eqb donor_dict
             (DonorM.total_donations obj) donor))
    (Dict.values (donor_data self)) [].

(** [reversed(sorted(donor_dict))], each key with its entry: a key drawn
    from the dict finds its own entry when it is subscripted (a NaN key
    by identity), so the entries are sorted by their keys. *)
Definition descending (donor_dict : list (float * list ref))
  : list (float * list ref) :=
  rev (Py.sorted (fun a b => PrimFloat.ltb (fst a) (fst b)) donor_dict).

Definition report_head : string :=
  let report := Fmt.LF in
  let report :=
    (report ++ REPORT_HEADER "Donor Name" "Total Given" "Num Gifts" "Average Gift")%string in
  let report := (report ++ Fmt.LF)%string in
  let report := (report ++ Py.repeat_string "-" 90)%string in
  (report ++ Fmt.LF)%string.

Definition get_donor_report (w : World) (self : DonorDB) : result string :=
  donor_dict <- group_by_total w self ;;
  report <- for_each
              (fun report entry => report_group w report (snd entry))
              (descending donor_dict) report_head ;;
  Ok (report ++ Fmt.LF ++ Fmt.LF)%string.

End DonorDBM.

(* ================================================================== *)
(** ** Notions the statements use *)

(** The comparison of two floats: [None] when one of them is NaN. *)
Definition float_compare (x y : float) : option comparison :=
  SFcompare (Prim2SF x) (Prim2SF y).

(** Every reference of the collection names an object of the heap. *)
Definition DB_live (w : World) (self : DonorDB) : Prop :=
  Forall (fun r => exists obj, load w r = Ok obj) (DonorDBM.donors self).

(** The names of a collection are pairwise different and its references
    name objects of the heap. *)
Definition DB_ok (w : World) (self : DonorDB) : Prop :=
  NoDup (Dict.keys (donor_data self)) /\ DB_live w self.

(** The donations the collection holds under a name. *)
Definition donations_of (w : World) (self : DonorDB) (name : string)
  : option (list float) :=
  match DonorDBM.get_donor self name with
  | Some donor =>
      match load w donor with
      | Ok obj => Some (donations obj)
      | Raise _ => None
      end
  | None => None
  end.

(** The row of one donor, and the rows of a list of donors. *)
Definition report_row (w : World) (donor : ref) : result string :=
  obj <- load w donor ;;
  avg <- DonorM.avg_donations obj ;;
  Ok (REPORT_LINE (DonorM.name obj) (DonorM.total_donations obj)
        (DonorM.num_donations obj) avg ++ Fmt.LF)%string.

Fixpoint report_rows (w : World) (l : list ref) : result string :=
  match l with
  | [] => Ok EmptyString
  | r :: rest =>
      a <- report_row w r ;;
      b <- report_rows w rest ;;
      Ok (a ++ b)%string
  end.

(** The line of the report for a donor. *)
Definition is_row (w : World) (donor : ref) (line : string) : Prop :=
  exists obj avg,
    load w donor = Ok obj /\
    DonorM.avg_donations obj = Ok avg /\
    line = REPORT_LINE (DonorM.name obj) (DonorM.total_donations obj)
             (DonorM.num_donations obj) avg.

(** The lines of a text, each closed by a line feed. *)
Definition join_lines (lines : list string) : string :=
  fold_right (fun line rest => (line ++ Fmt.LF ++ rest)%string) EmptyString lines.

(** The columns of the header line and of a data line. *)
Definition header_columns : list string :=
  [Fmt.format_s 50 "Donor Name";
   ("| " ++ Fmt.format_s 12 "Total Given")%string;
   ("| " ++ Fmt.format_s 10 "Num Gifts")%string;
   ("| " ++ Fmt.format_s 12 "Average Gift")%string].

Definition line_columns (a0 : string) (a1 : float) (a2 : nat) (a3 : float)
  : list string :=
  [Fmt.format_s 50 a0;
   (" $" ++ Fmt.format_f Fmt.SignSpace 12 2 a1)%string;
   Fmt.format_d Fmt.SignSpace 12 (Z.of_nat a2);
   Fmt.format_f Fmt.SignSpace 14 2 a3].

Definition column_widths : list nat := [50; 14; 12; 14].

Definition join (cols : list string) : string :=
  fold_right String.append EmptyString cols.

(** The total of the donor a reference names. *)
Definition total_of (w : World) (donor : ref) : float :=
  match load w donor with
  | Ok obj => DonorM.total_donations obj
  | Raise _ => 0%float
  end.

(** [donor_dict] after the donors [l], from [acc]. *)
Definition grouping (w : World) (l : list ref) (acc : list (float * list ref))
  : list (float * list ref) :=
  fold_left
    (fun donor_dict donor =>
       Dict.setdefault_append PrimFloat.eqb donor_dict (total_of w donor) donor)
    l acc.

(** The state of [donor_dict] after the donors [p]: every entry holds,
    in their order in [p], the donors whose total equals its key; the
    keys are numbers, no two of them equal; every donor of [p] has the
    entry of its total. *)
Definition groups_of (tot : ref -> float) (p : list ref)
    (donor_dict : list (float * list ref)) : Prop :=
  (forall t g, In (t, g) donor_dict ->
     g <> [] /\ g = filter (fun r => PrimFloat.eqb (tot r) t) p) /\
  StronglySorted (fun a b => PrimFloat.eqb a b = false) (map fst donor_dict) /\
  (forall r, In r p ->
     exists t, In t (map fst donor_dict) /\ PrimFloat.eqb (tot r) t = true) /\
  Forall (fun t => PrimFloat.is_nan t = false) (map fst donor_dict).

(** The name and the donations of the donor a reference names. *)
Definition name_of (w : World) (donor : ref) : string :=
  match load w donor with
  | Ok obj => DonorM.name obj
  | Raise _ => EmptyString
  end.

Definition donations_at (w : World) (donor : ref) : list float :=
  match load w donor with
  | Ok obj => donations obj
  | Raise _ => []
  end.

(** The last of the donors [l] whose name is [name]. *)
Definition last_named (w : World) (l : list ref) (name : string) : option ref :=
  find (fun r => String.eqb (name_of w r) name) (rev l).

(** The names of a list, each at its first place. *)
Definition first_occurrences (names : list string) : list string :=
  fold_left
    (fun acc k => if existsb (String.eqb k) acc then acc else acc ++ [k])
    names [].

(** The document of a collection: a member per name, with the donations
    of the donor stored under it. *)
Definition document_of (w : World) (self : DonorDB) : snapshot :=
  map (fun kv => (fst kv, donations_at w (snd kv))) (donor_data self).

(** Every donor of the collection is stored under its own name. *)
Definition DB_keyed (w : World) (self : DonorDB) : Prop :=
  Forall
    (fun kv => exists obj, load w (snd kv) = Ok obj /\ DonorM.name obj = fst kv)
    (donor_data self).

(** Two references, each in its world, name equal objects. *)
Definition same_object (w w' : World) (r r' : ref) : Prop :=
  exists obj, load w r = Ok obj /\ load w' r' = Ok obj.

(** Two entries of [donor_dict], each in its world, have one key and,
    place by place, equal objects. *)
Definition same_entry (w w' : World) (e e' : float * list ref) : Prop :=
  fst e = fst e' /\ Forall2 (same_object w w') (snd e) (snd e').

(** ** The exact value of a float *)

(** The value of a finite number in units of 2^-1074, the least positive
    binary64 number: a finite number with mantissa [m] and exponent [e]
    is [m * 2^e], and [e] is at least -1074, so every finite number is a
    whole number of units. What is not finite counts 0 here and is told
    apart by [nonneg_finite]. *)
Definition units_SF (x : spec_float) : Z :=
  match x with
  | S754_finite s m e => cond_Zopp s (Zpos m * 2 ^ (e + 1074))%Z
  | _ => 0%Z
  end.

Definition scaled_value (x : float) : Z := units_SF (Prim2SF x).

(** A finite number that is not negative. *)
Definition nonneg_finite_SF (x : spec_float) : bool :=
  match x with
  | S754_zero _ | S754_finite false _ _ => true
  | _ => false
  end.

Definition nonneg_finite (x : float) : bool := nonneg_finite_SF (Prim2SF x).

(** The exact sum of amounts, a sum of integers in the same units. *)
Definition exact_sum (l : list float) : Z :=
  fold_right (fun a s => (scaled_value a + s)%Z) 0%Z l.

(** [x] is finite, not negative, and within the rounding of [n] float
    additions of the exact value [s]: [|x - s| <= ((1 + 2^-53)^n - 1) * s],
    written without fractions. *)
Definition within_rounding (n : nat) (x : float) (s : Z) : Prop :=
  nonneg_finite x = true /\
  ((2 ^ 53) ^ Z.of_nat n * Z.abs (scaled_value x - s) <=
   ((2 ^ 53 + 1) ^ Z.of_nat n - (2 ^ 53) ^ Z.of_nat n) * s)%Z.

(** The exact sum of the amounts, enlarged by that rounding, is below
    2^1024, the bound of the finite numbers:
    [(1 + 2^-53)^n * sum < 2^1024] for [n] amounts. *)
Definition sum_fits (l : list float) : Prop :=
  ((2 ^ 53 + 1) ^ Z.of_nat (List.length l) * exact_sum l <
   (2 ^ 53) ^ Z.of_nat (List.length l) * (2 ^ 1024 * 2 ^ 1074))%Z.

(** [x] is a float sum of the amounts [l]: within the rounding of their
    exact sum, or infinity, and infinity only when the exact sum
    enlarged by the rounding reaches 2^1024. *)
Definition rounded_sum_of (x : float) (l : list float) : Prop :=
  within_rounding (List.length l) x (exact_sum l) \/
  (x = infinity /\ ~ sum_fits l).

(** What [k] right shifts of the rounding keep of a mantissa [M]: the
    quotient by [2^k], the bit shifted out last and whether a lower bit
    was set ([t] is twice what lies below that bit). *)
Definition shifted (M : Z) (k : Z) (mrs : shr_record) : Prop :=
  (0 <= shr_m mrs)%Z /\
  exists t : Z,
    (0 <= t < 2 ^ k)%Z /\
    (2 * M = 2 ^ (k + 1) * shr_m mrs + (if shr_r mrs then 2 ^ k else 0) + t)%Z /\
    (shr_s mrs = false -> t = 0%Z) /\
    (shr_r mrs = true -> (0 < k)%Z).

(** ** Collections the statements are tried on *)

Definition world_of_one (obj : Donor) : World :=
  {| heap := [obj]; files := []; unwritable := [] |}.

Definition example_world : World :=
  {| heap := [mkDonor "Bob" [50%float];
              mkDonor "Alice" [100%float; 200%float];
              mkDonor "Carol" [300%float]];
     files := [];
     unwritable := [] |}.

Definition example_db : DonorDB :=
  {| donor_data := [("Bob"%string, 0); ("Alice"%string, 1); ("Carol"%string, 2)] |}.

Definition example_saved : World :=
  {| heap := heap example_world;
     files := [("donors.json"%string,
                [("Bob"%string, [50%float]);
                 ("Alice"%string, [100%float; 200%float]);
                 ("Carol"%string, [300%float])])];
     unwritable := [] |}.

Definition example_report : string :=
  Eval vm_compute in
    match DonorDBM.get_donor_report example_world example_db with
    | Ok report => report
    | Raise _ => EmptyString
    end.

(** The same collection with a donor who has not given yet. *)
Definition example_world_new_donor : World :=
  {| heap := heap example_world ++ [mkDonor "Dave" []];
     files := [];
     unwritable := [] |}.

Definition example_db_new_donor : DonorDB :=
  {| donor_data := donor_data example_db ++ [("Dave"%string, 3)] |}.

(** Two donors of one name, and a third. *)
Definition example_world_same_name : World :=
  {| heap := [mkDonor "Ann" [5%float];
              mkDonor "Ben" [7%float];
              mkDonor "Ann" [9%float; 1%float]];
     files := [("twice.json"%string,
                [("Ann"%string, [5%float]);
                 ("Ben"%string, [7%float]);
                 ("Ann"%string, [9%float; 1%float])])];
     unwritable := [] |}.

(** Amounts whose float sum overflows in one order only, and amounts
    with a negative one among them. *)
Definition amounts_near_overflow : list float :=
  [0x1.fffffffffffffp+1023%float; 0x1p+969%float; 0x1p+969%float].

Definition amounts_with_refund : list float :=
  [1e16%float; 1%float; (-1e16)%float].

(* ================================================================== *)
(** * Properties *)

(** ** Strings *)

Lemma append_assoc (a b c : string) :
  ((a ++ b) ++ c)%string = (a ++ (b ++ c))%string.
Proof.
  induction a as [|ch a IH]; simpl; [reflexivity | now rewrite IH].
Qed.

Lemma append_nil_r (a : string) : (a ++ "")%string = a.
Proof.
  induction a as [|ch a IH]; simpl; [reflexivity | now rewrite IH].
Qed.

Lemma length_append (a b : string) :
  String.length (a ++ b) = String.length a + String.length b.
Proof.
  induction a as [|ch a IH]; simpl; [reflexivity | now rewrite IH].
Qed.

Lemma length_repeat_char (c : ascii) (n : nat) :
  String.length (Py.repeat_string (String c EmptyString) n) = n.
Proof.
  induction n as [|n IH]; simpl; [reflexivity | now rewrite IH].
Qed.

Lemma length_ljust (w : nat) (s : string) :
  String.length (Fmt.ljust w s) = Nat.max w (String.length s).
Proof.
  unfold Fmt.ljust, Fmt.spaces.
  rewrite length_append, length_repeat_char. lia.
Qed.

Lemma length_rjust (w : nat) (s : string) :
  String.length (Fmt.rjust w s) = Nat.max w (String.length s).
Proof.
  unfold Fmt.rjust, Fmt.spaces.
  rewrite length_append, length_repeat_char. lia.
Qed.

(** ** The heap *)

Lemma load_alloc_new (w : World) (d : Donor) :
  load (snd (alloc w d)) (fst (alloc w d)) = Ok d.
Proof.
  unfold load, alloc; simpl.
  rewrite nth_error_app2 by lia.
  now rewrite Nat.sub_diag.
Qed.

Lemma load_alloc_old (w : World) (d obj : Donor) (r : ref) :
  load w r = Ok obj -> load (snd (alloc w d)) r = Ok obj.
Proof.
  unfold load, alloc; simpl.
  destruct (nth_error (heap w) r) as [x|] eqn:E; [|discriminate].
  intros H. rewrite nth_error_app1.
  - now rewrite E.
  - apply nth_error_Some. congruence.
Qed.

Lemma load_fresh (w : World) : load w (List.length (heap w)) = Raise ReferenceError.
Proof.
  unfold load.
  destruct (nth_error (heap w) (List.length (heap w))) eqn:E; [|reflexivity].
  assert (List.length (heap w) < List.length (heap w)); [|lia].
  apply nth_error_Some. congruence.
Qed.

Lemma nth_error_replace_nth_eq {A : Type} (l : list A) (n : nat) (x : A) :
  n < List.length l -> nth_error (replace_nth l n x) n = Some x.
Proof.
  revert n; induction l as [|y l IH]; intros [|n] H; simpl in *;
    try lia; [reflexivity | apply IH; lia].
Qed.

Lemma nth_error_replace_nth_neq {A : Type} (l : list A) (n m : nat) (x : A) :
  n <> m -> nth_error (replace_nth l n x) m = nth_error l m.
Proof.
  revert n m; induction l as [|y l IH]; intros [|n] [|m] H; simpl;
    try reflexivity; try lia.
  apply IH. lia.
Qed.

Lemma add_donation_load (w : World) (donor : ref) (obj : Donor) (amount : float) :
  load w donor = Ok obj ->
  exists w',
    add_donation w donor amount = Ok w' /\
    load w' donor = Ok (DonorM.add_donation obj amount) /\
    (forall r, r <> donor -> load w' r = load w r) /\
    files w' = files w.
Proof.
  unfold add_donation, load, store.
  destruct (nth_error (heap w) donor) as [d|] eqn:E; [|discriminate].
  intros H; injection H as ->. simpl.
  eexists; split; [reflexivity|]. simpl.
  split; [|split]; [| |reflexivity].
  - rewrite nth_error_replace_nth_eq; [reflexivity|].
    apply nth_error_Some. congruence.
  - intros r Hr. rewrite nth_error_replace_nth_neq by congruence. reflexivity.
Qed.

(** A run of [add_donation] calls on one donor appends the amounts. *)
Lemma add_donations_load (amounts : list float) :
  forall (w : World) (donor : ref) (obj : Donor),
    load w donor = Ok obj ->
    exists w',
      for_each (fun w a => add_donation w donor a) amounts w = Ok w' /\
      load w' donor =
        Ok {| _donorname := _donorname obj;
              donations := donations obj ++ amounts |}.
Proof.
  induction amounts as [|a amounts IH]; intros w donor obj H; simpl.
  - exists w; split; [reflexivity|].
    rewrite app_nil_r. now destruct obj.
  - destruct (add_donation_load w donor obj a H) as (w1 & -> & H1 & _).
    simpl. destruct (IH w1 donor _ H1) as (w' & -> & H').
    exists w'; split; [reflexivity|].
    rewrite H'. simpl. now rewrite <- app_assoc.
Qed.

(** ** Rounding

    Float addition after its specification ([SFadd]): the sum of two
    finite numbers that are not negative is their exact sum rounded to
    53 bits, to the nearest and on a tie to the even mantissa, or
    infinity when that is 2^1024 or more. *)

Section Rounding.
Local Open Scope Z_scope.

(** The exponent of the last bit kept of a number with [e] bits before
    the point: 53 bits are kept, down to the exponent -1074. *)
Lemma fexp_eq (e : Z) : fexp prec emax e = Z.max (e - 53) (-1074).
Proof. reflexivity. Qed.

(** The number of bits of a mantissa. *)
Lemma digits2_pos_bounds (p : positive) :
  2 ^ (Zpos (digits2_pos p) - 1) <= Zpos p < 2 ^ Zpos (digits2_pos p).
Proof.
  induction p as [p IH|p IH|]; cbn [digits2_pos].
  - rewrite Pos2Z.inj_succ.
    replace (Z.succ (Zpos (digits2_pos p)) - 1) with (Z.succ (Zpos (digits2_pos p) - 1)) by lia.
    rewrite !Z.pow_succ_r by lia. lia.
  - rewrite Pos2Z.inj_succ.
    replace (Z.succ (Zpos (digits2_pos p)) - 1) with (Z.succ (Zpos (digits2_pos p) - 1)) by lia.
    rewrite !Z.pow_succ_r by lia. lia.
  - cbn. lia.
Qed.

Lemma digits2_pos_unique (p : positive) (d : Z) :
  2 ^ (d - 1) <= Zpos p < 2 ^ d -> Zpos (digits2_pos p) = d.
Proof.
  intros [H1 H2]. pose proof (digits2_pos_bounds p) as [B1 B2].
  assert (0 < d). { destruct (Z.ltb_spec 0 d); [assumption|].
    assert (2 ^ d <= 2 ^ 0) by (apply Z.pow_le_mono_r; lia). simpl in *. lia. }
  set (q := Zpos (digits2_pos p)) in *.
  destruct (Z.lt_trichotomy q d) as [L|[E|G]]; [|exact E|].
  - assert (2 ^ q <= 2 ^ (d - 1)) by (apply Z.pow_le_mono_r; lia). lia.
  - assert (2 ^ d <= 2 ^ (q - 1)) by (apply Z.pow_le_mono_r; lia). lia.
Qed.

(** Shifting a mantissa left. *)
Lemma iter_xO (d : positive) (m : positive) :
  Zpos (Pos.iter xO m d) = Zpos m * 2 ^ Zpos d.
Proof.
  revert m. induction d using Pos.peano_ind; intros m.
  - cbn [Pos.iter]. rewrite Z.pow_1_r. lia.
  - rewrite Pos.iter_succ, Pos2Z.inj_succ, Z.pow_succ_r by lia.
    rewrite Pos2Z.inj_xO, IHd. lia.
Qed.

Lemma iter_pos_nat {A : Type} (f : A -> A) (p : positive) (x : A) :
  iter_pos f p x = Nat.iter (Pos.to_nat p) f x.
Proof.
  revert x. induction p as [p IH|p IH|]; intros x; cbn [iter_pos].
  - rewrite !IH, Pos2Nat.inj_xI.
    replace (S (2 * Pos.to_nat p))%nat with (Pos.to_nat p + (Pos.to_nat p + 1))%nat by lia.
    rewrite !Nat.iter_add. reflexivity.
  - rewrite !IH, Pos2Nat.inj_xO.
    replace (2 * Pos.to_nat p)%nat with (Pos.to_nat p + Pos.to_nat p)%nat by lia.
    rewrite Nat.iter_add. reflexivity.
  - reflexivity.
Qed.

(** Shifting a mantissa right, bit by bit ([shr_1]): the invariant
    [shifted]. *)
Lemma shifted_0 (M : Z) : 0 <= M -> shifted M 0 (Build_shr_record M false false).
Proof.
  intros H. split; [exact H|]. exists 0. cbn. repeat split; try lia; try discriminate.
Qed.

Lemma shifted_step (M k : Z) (mrs : shr_record) :
  0 <= k -> shifted M k mrs -> shifted M (k + 1) (shr_1 mrs).
Proof.
  intros Hk (Hm & t & Ht & E & Hs & Hr).
  destruct mrs as [m r s]; cbn [shr_m shr_r shr_s] in *.
  assert (P1 : 2 ^ (k + 1) = 2 * 2 ^ k) by (rewrite Z.pow_add_r by lia; lia).
  assert (P2 : 2 ^ (k + 1 + 1) = 4 * 2 ^ k) by (rewrite !Z.pow_add_r by lia; lia).
  assert (P0 : 0 < 2 ^ k) by (apply Z.pow_pos_nonneg; lia).
  rewrite P1 in E.
  assert (S' : (r || s = false -> (if r then 2 ^ k else 0) + t = 0)).
  { intros H. apply orb_false_elim in H as [-> Hs']. rewrite (Hs Hs'). reflexivity. }
  assert (T : 0 <= (if r then 2 ^ k else 0) + t < 2 ^ (k + 1)).
  { destruct r; lia. }
  destruct m as [|[p|p|]|p]; try lia; unfold shifted, shr_1; cbn [shr_m shr_r shr_s];
    (split; [try lia|]); exists ((if r then 2 ^ k else 0) + t);
    (split; [exact T|]); (split; [|split; [exact S'|intros _; lia]]).
  - rewrite ?P2, ?P1. clear - E. destruct r; lia.
  - rewrite ?P2, ?P1. rewrite (Pos2Z.inj_xI p) in E. clear - E. destruct r; lia.
  - rewrite ?P2, ?P1. rewrite (Pos2Z.inj_xO p) in E. clear - E. destruct r; lia.
  - rewrite ?P2, ?P1. clear - E. destruct r; lia.
Qed.

Lemma shifted_iter (M : Z) (n : nat) :
  0 <= M ->
  shifted M (Z.of_nat n) (Nat.iter n shr_1 (Build_shr_record M false false)).
Proof.
  intros H. induction n as [|n IH].
  - apply shifted_0, H.
  - rewrite Nat2Z.inj_succ. cbn [Nat.iter]. apply shifted_step; [lia|exact IH].
Qed.

Lemma shr_shifted (M e k : Z) :
  0 <= M ->
  shifted M (Z.max k 0) (fst (shr (Build_shr_record M false false) e k)) /\
  snd (shr (Build_shr_record M false false) e k) = e + Z.max k 0.
Proof.
  intros H. destruct k as [|p|p]; cbn [shr fst snd].
  - split; [apply shifted_0, H|lia].
  - rewrite Z.max_l by lia. split; [|reflexivity].
    rewrite iter_pos_nat. rewrite <- (positive_nat_Z p). apply shifted_iter, H.
  - split; [apply shifted_0, H|lia].
Qed.

(** Rounding to nearest after [k] shifts is within half a unit. *)
Lemma round_shifted (M k : Z) (mrs : shr_record) :
  0 <= k -> shifted M k mrs ->
  let m1 := round_nearest_even (shr_m mrs) (loc_of_shr_record mrs) in
  shr_m mrs <= m1 <= shr_m mrs + 1 /\
  2 * Z.abs (m1 * 2 ^ k - M) <= 2 ^ k /\
  (k = 0 -> m1 = M).
Proof.
  intros Hk (Hm & t & Ht & E & Hs & Hr).
  destruct mrs as [m r s]; cbn [shr_m shr_r shr_s] in *.
  assert (P1 : 2 ^ (k + 1) = 2 * 2 ^ k) by (rewrite Z.pow_add_r by lia; lia).
  assert (P0 : 0 < 2 ^ k) by (apply Z.pow_pos_nonneg; lia).
  rewrite P1 in E.
  destruct r, s; cbn [loc_of_shr_record round_nearest_even].
  - split; [lia|]. split; [|intros ->; specialize (Hr eq_refl); lia]. nia.
  - specialize (Hs eq_refl). subst t.
    destruct (Z.even m); (split; [lia|]); (split; [|intros ->; specialize (Hr eq_refl); lia]); nia.
  - split; [lia|]. split; [nia|]. intros ->. change (2 ^ 0) with 1 in *. lia.
  - specialize (Hs eq_refl). subst t. split; [lia|]. split; [nia|]. intros ->. change (2 ^ 0) with 1 in *. lia.
Qed.

Lemma pow2_split (a b : Z) : 0 <= a -> 0 <= b -> 2 ^ (a + b) = 2 ^ a * 2 ^ b.
Proof. intros. apply Z.pow_add_r; assumption. Qed.

Lemma pow2_pos (a : Z) : 0 <= a -> 0 < 2 ^ a.
Proof. intros. apply Z.pow_pos_nonneg; lia. Qed.

(** The rounding of a positive mantissa that needs no left shift. *)
Lemma binary_round_aux_pos (M : positive) (e : Z) :
  -1074 <= e ->
  e <= fexp prec emax (Zpos (digits2_pos M) + e) ->
  exists m2 e2,
    binary_round_aux prec emax false (Zpos M) e loc_Exact =
      (if e2 <=? 971 then S754_finite false m2 e2 else S754_infinity false) /\
    e <= e2 /\
    canonical_mantissa prec emax m2 e2 = true /\
    2 ^ 53 * Z.abs (Zpos m2 * 2 ^ (e2 - e) - Zpos M) <= Zpos M /\
    (Zpos (digits2_pos M) <= 53 -> m2 = M /\ e2 = e) /\
    (e2 = e \/ 2 ^ 52 <= Zpos m2).
Proof.
  intros He Hk.
  pose proof (digits2_pos_bounds M) as [D1 D2].
  set (d := Zpos (digits2_pos M)) in *.
  assert (Hd : 0 < d) by (unfold d; lia).
  rewrite fexp_eq in Hk.
  unfold binary_round_aux, shr_fexp.
  cbn [Zdigits2 shr_record_of_loc]. fold d. rewrite fexp_eq.
  remember (Z.max (d + e - 53) (-1074) - e) as k eqn:Ek.
  assert (Hk0 : 0 <= k) by lia.
  destruct (shr_shifted (Zpos M) e k (Pos2Z.is_nonneg M)) as [S1 S2].
  destruct (shr (Build_shr_record (Zpos M) false false) e k) as [mrs1 e1].
  cbn [fst snd] in S1, S2. rewrite Z.max_l in S1, S2 by lia. subst e1.
  destruct (round_shifted _ _ _ Hk0 S1) as (R1 & R2 & R3).
  set (m1 := round_nearest_even (shr_m mrs1) (loc_of_shr_record mrs1)) in *.
  destruct (Z.eq_dec k 0) as [K0|K0].
  - (* no shift: the mantissa is kept *)
    rewrite (R3 K0). cbn [Zdigits2]. fold d. rewrite fexp_eq, K0, Z.add_0_r.
    replace (Z.max (d + e - 53) (-1074) - e) with 0 by lia.
    cbn [shr shr_m].
    exists M, e. split; [reflexivity|]. split; [lia|].
    split; [unfold canonical_mantissa; fold d; rewrite fexp_eq; apply Z.eqb_eq; lia|].
    split; [|split; [intros _; split; reflexivity|left; reflexivity]].
    rewrite Z.sub_diag, Z.mul_1_r, Z.sub_diag. cbn. lia.
  - (* [k = d - 53] bits are shifted out *)
    assert (K : k = d - 53) by lia.
    assert (Kp : 0 < k) by lia.
    destruct S1 as (Hm & t & Ht & E & _ & _).
    assert (P1 : 2 ^ (k + 1) = 2 * 2 ^ k) by (rewrite pow2_split by lia; lia).
    assert (P0 : 0 < 2 ^ k) by (apply pow2_pos; lia).
    assert (Pd : 2 ^ d = 2 ^ k * 2 ^ 53).
    { replace d with (k + 53) by lia. apply pow2_split; lia. }
    assert (Pd1 : 2 ^ (d - 1) = 2 ^ k * 2 ^ 52).
    { replace (d - 1) with (k + 52) by lia. apply pow2_split; lia. }
    rewrite Pd in D2. rewrite Pd1 in D1. rewrite P1 in E.
    set (m := shr_m mrs1) in *.
    assert (C : 0 <= (if shr_r mrs1 then 2 ^ k else 0) + t < 2 * 2 ^ k)
      by (destruct (shr_r mrs1); lia).
    assert (B : 2 ^ 52 <= m < 2 ^ 53) by (split; nia).
    assert (Err : 2 ^ 53 * Z.abs (m1 * 2 ^ k - Zpos M) <= Zpos M).
    { change (2 ^ 53) with (2 * 2 ^ 52). nia. }
    destruct (Z.eq_dec m1 (2 ^ 53)) as [Top|Top].
    + (* the rounding carried into a new bit *)
      rewrite Top in *.
      change (Zdigits2 (2 ^ 53)) with 54. rewrite fexp_eq.
      replace (Z.max (54 + (e + k) - 53) (-1074) - (e + k)) with 1 by lia.
      cbn [shr iter_pos]. change (shr_1 (Build_shr_record (2 ^ 53) false false))
        with (Build_shr_record (2 ^ 52) false false).
      cbn [shr_m]. change (2 ^ 52) with (Zpos (2 ^ 52)%positive).
      exists (2 ^ 52)%positive, (e + k + 1).
      split; [reflexivity|]. split; [lia|].
      split; [unfold canonical_mantissa; rewrite fexp_eq;
              change (Zpos (digits2_pos (2 ^ 52))) with 53; apply Z.eqb_eq; lia|].
      split; [|split; [intros; lia|right; reflexivity]].
      replace (e + k + 1 - e) with (k + 1) by lia. rewrite P1.
      change (Zpos (2 ^ 52)%positive) with (2 ^ 52).
      replace (2 ^ 52 * (2 * 2 ^ k)) with (2 ^ 53 * 2 ^ k) by (change (2 ^ 53) with (2 * 2 ^ 52); ring).
      exact Err.
    + assert (B1 : 2 ^ 52 <= m1 < 2 ^ 53) by lia.
      destruct m1 as [|q|q] eqn:Em1; try (change (2 ^ 52) with 4503599627370496 in B1; lia).
      assert (Dq : Zpos (digits2_pos q) = 53)
        by (apply digits2_pos_unique; change (53 - 1) with 52; exact B1).
      cbn [Zdigits2]. rewrite Dq, fexp_eq.
      replace (Z.max (53 + (e + k) - 53) (-1074) - (e + k)) with 0 by lia.
      cbn [shr shr_m].
      exists q, (e + k).
      split; [reflexivity|]. split; [lia|].
      split; [unfold canonical_mantissa; rewrite Dq, fexp_eq; apply Z.eqb_eq; lia|].
      split; [|split; [intros; lia|right; lia]].
      replace (e + k - e) with k by lia. exact Err.
Qed.

(** Aligning a mantissa to a lower exponent keeps the value. *)
Lemma shl_align_value (m : positive) (e e' : Z) :
  e' <= e ->
  shl_align m e e' = (fst (shl_align m e e'), e') /\
  Zpos (fst (shl_align m e e')) = Zpos m * 2 ^ (e - e').
Proof.
  intros H. unfold shl_align.
  destruct (e' - e) as [|s|s] eqn:E; try lia; cbn [fst].
  - assert (e' = e) by lia. subst e'. rewrite Z.sub_diag, Z.mul_1_r. split; reflexivity.
  - split; [reflexivity|]. rewrite iter_xO. f_equal. f_equal. lia.
Qed.

Lemma digits2_pos_shift (m m' : positive) (s : Z) :
  0 <= s -> Zpos m' = Zpos m * 2 ^ s ->
  Zpos (digits2_pos m') = Zpos (digits2_pos m) + s.
Proof.
  intros Hs E. pose proof (digits2_pos_bounds m) as [B1 B2].
  apply digits2_pos_unique. rewrite E.
  replace (Zpos (digits2_pos m) + s - 1) with (Zpos (digits2_pos m) - 1 + s) by lia.
  rewrite !pow2_split by lia.
  pose proof (pow2_pos s Hs). nia.
Qed.

(** The value of a finite number in units of 2^-1074, the least positive
    binary64 number. *)
(** [binary_normalize] of a positive mantissa [M] at an exponent [e]:
    the number [M * 2^e] rounded to 53 bits. The result is within a
    relative 2^-53 of it, equal to it when [M] has at most 53 bits, and
    infinite only with a mantissa of 53 bits at an exponent above 971. *)
Lemma binary_normalize_pos (M : positive) (e : Z) :
  -1074 <= e ->
  exists m2 e2,
    binary_normalize prec emax (Zpos M) e false =
      (if e2 <=? 971 then S754_finite false m2 e2 else S754_infinity false) /\
    -1074 <= e2 /\
    canonical_mantissa prec emax m2 e2 = true /\
    2 ^ 53 * Z.abs (Zpos m2 * 2 ^ (e2 + 1074) - Zpos M * 2 ^ (e + 1074))
      <= Zpos M * 2 ^ (e + 1074) /\
    (Zpos M < 2 ^ 53 ->
     Zpos m2 * 2 ^ (e2 + 1074) = Zpos M * 2 ^ (e + 1074) /\ e2 <= e) /\
    (e2 <= e \/ 2 ^ 52 <= Zpos m2).
Proof.
  intros He. cbn [binary_normalize]. unfold binary_round.
  pose proof (digits2_pos_bounds M) as [D1 D2].
  set (d := Zpos (digits2_pos M)) in *.
  assert (Hd : 0 < d) by (unfold d; lia).
  assert (D53 : Zpos M < 2 ^ 53 -> d <= 53).
  { intros L. destruct (Z.leb_spec d 53) as [|G]; [assumption|].
    assert (2 ^ 53 <= 2 ^ (d - 1)) by (apply Z.pow_le_mono_r; lia). lia. }
  rewrite fexp_eq.
  remember (Z.max (d + e - 53) (-1074)) as e' eqn:Ee'.
  destruct (Z.le_gt_cases e e') as [L|G].
  - (* no left shift *)
    assert (S0 : shl_align M e e' = (M, e)).
    { unfold shl_align. destruct (e' - e) eqn:E; try reflexivity. lia. }
    rewrite S0.
    destruct (binary_round_aux_pos M e He) as (m2 & e2 & R & R1 & R2 & R3 & R4 & R5).
    { fold d. rewrite fexp_eq. lia. }
    exists m2, e2. split; [exact R|]. split; [lia|]. split; [exact R2|].
    assert (P : 2 ^ (e2 + 1074) = 2 ^ (e2 - e) * 2 ^ (e + 1074)).
    { rewrite <- pow2_split by lia. f_equal. lia. }
    pose proof (pow2_pos (e + 1074) ltac:(lia)) as P0.
    rewrite P. split; [|split].
    + set (u := 2 ^ (e + 1074)) in *. set (v := 2 ^ (e2 - e)) in *.
      replace (Zpos m2 * (v * u) - Zpos M * u) with ((Zpos m2 * v - Zpos M) * u) by ring.
      rewrite Z.abs_mul, (Z.abs_eq u) by lia. nia.
    + intros L53. destruct (R4 (D53 L53)) as [-> ->].
      rewrite Z.sub_diag. split; [ring|lia].
    + destruct R5 as [->|R5]; [left; lia|right; exact R5].
  - (* the mantissa is shifted left to [e'] *)
    destruct (shl_align_value M e e' ltac:(lia)) as [S1 S2].
    rewrite S1. set (mz := fst (shl_align M e e')) in *.
    assert (Dz : Zpos (digits2_pos mz) = d + (e - e'))
      by (apply digits2_pos_shift; [lia|exact S2]).
    destruct (binary_round_aux_pos mz e' ltac:(lia)) as (m2 & e2 & R & R1 & R2 & R3 & R4 & _).
    { rewrite Dz, fexp_eq. lia. }
    exists m2, e2. split; [exact R|]. split; [lia|]. split; [exact R2|].
    destruct (R4 ltac:(lia)) as [-> ->].
    assert (P : 2 ^ (e + 1074) = 2 ^ (e - e') * 2 ^ (e' + 1074)).
    { rewrite <- pow2_split by lia. f_equal. lia. }
    rewrite P, S2.
    replace (Zpos M * 2 ^ (e - e') * 2 ^ (e' + 1074) - Zpos M * (2 ^ (e - e') * 2 ^ (e' + 1074)))
      with 0 by ring.
    pose proof (pow2_pos (e - e') ltac:(lia)). pose proof (pow2_pos (e' + 1074) ltac:(lia)).
    split; [cbn [Z.abs]; nia|]. split; [intros _; split; [ring|lia]|left; lia].
Qed.

(** The exponents of the finite numbers. *)
Lemma valid_exponent (m : positive) (e : Z) :
  bounded prec emax m e = true -> -1074 <= e <= 971.
Proof.
  unfold bounded, canonical_mantissa. rewrite fexp_eq.
  intros H. apply andb_prop in H as [H H']. apply Z.eqb_eq in H.
  apply Z.leb_le in H'. change (emax - prec) with 971 in H'. lia.
Qed.

(** The float sum of two non-negative finite numbers: within a relative
    2^-53 of their exact sum, or infinite when that is too large. *)
Lemma SFadd_nonneg (x y : spec_float) :
  valid_binary x = true -> valid_binary y = true ->
  nonneg_finite_SF x = true -> nonneg_finite_SF y = true ->
  (SFadd prec emax x y = S754_infinity false /\
   2 ^ 53 * 2 ^ 2098 <= (2 ^ 53 + 1) * (units_SF x + units_SF y)) \/
  (nonneg_finite_SF (SFadd prec emax x y) = true /\
   2 ^ 53 * Z.abs (units_SF (SFadd prec emax x y) - (units_SF x + units_SF y))
     <= units_SF x + units_SF y).
Proof.
  intros Vx Vy Nx Ny.
  destruct x as [sx|sx| |sx mx ex]; try discriminate;
    destruct y as [sy|sy| |sy my ey]; try discriminate.
  - right. destruct sx, sy; cbn; split; try reflexivity; lia.
  - right. destruct sy; try discriminate. cbn [SFadd units_SF cond_Zopp nonneg_finite_SF].
    split; [reflexivity|]. rewrite Z.add_0_l, Z.sub_diag. cbn [Z.abs].
    pose proof (pow2_pos (ey + 1074)) as P. pose proof (valid_exponent _ _ Vy). nia.
  - right. destruct sx; try discriminate. cbn [SFadd units_SF cond_Zopp nonneg_finite_SF].
    split; [reflexivity|]. rewrite Z.add_0_r, Z.sub_diag. cbn [Z.abs].
    pose proof (pow2_pos (ex + 1074)) as P. pose proof (valid_exponent _ _ Vx). nia.
  - destruct sx, sy; try discriminate.
    pose proof (valid_exponent _ _ Vx) as Ex. pose proof (valid_exponent _ _ Vy) as Ey.
    cbn [SFadd cond_Zopp units_SF].
    set (ez := Z.min ex ey).
    destruct (shl_align_value mx ex ez ltac:(lia)) as [_ X].
    destruct (shl_align_value my ey ez ltac:(lia)) as [_ Y].
    set (ax := fst (shl_align mx ex ez)) in *. set (ay := fst (shl_align my ey ez)) in *.
    change (Zpos ax + Zpos ay) with (Zpos (ax + ay)).
    destruct (binary_normalize_pos (ax + ay) ez ltac:(lia))
      as (m2 & e2 & R & R1 & R2 & R3 & _ & R5).
    rewrite R.
    assert (V : Zpos (ax + ay) * 2 ^ (ez + 1074) =
                Zpos mx * 2 ^ (ex + 1074) + Zpos my * 2 ^ (ey + 1074)).
    { rewrite Pos2Z.inj_add, X, Y.
      replace (ex + 1074) with (ex - ez + (ez + 1074)) by lia.
      replace (ey + 1074) with (ey - ez + (ez + 1074)) by lia.
      rewrite (pow2_split (ex - ez) (ez + 1074)), (pow2_split (ey - ez) (ez + 1074)) by lia.
      ring. }
    rewrite V in R3.
    destruct (Z.leb_spec e2 971) as [L|G]; [right|left].
    + split; [reflexivity|]. cbn [units_SF cond_Zopp]. exact R3.
    + split; [reflexivity|].
      destruct R5 as [R5|R5]; [lia|].
      assert (B : 2 ^ 2098 <= Zpos m2 * 2 ^ (e2 + 1074)).
      { replace (e2 + 1074) with (2046 + (e2 - 972)) by lia.
        rewrite pow2_split by lia. pose proof (pow2_pos (e2 - 972) ltac:(lia)).
        change (2 ^ 2098) with (2 ^ 52 * 2 ^ 2046).
        assert (0 < 2 ^ 2046) by (apply pow2_pos; lia).
        set (a := 2 ^ 2046) in *. set (b := 2 ^ (e2 - 972)) in *. set (c := 2 ^ 52) in *.
        nia. }
      set (X2 := Zpos m2 * 2 ^ (e2 + 1074)) in *.
      set (S := Zpos mx * 2 ^ (ex + 1074) + Zpos my * 2 ^ (ey + 1074)) in *.
      set (W := 2 ^ 2098) in *. set (U := 2 ^ 53) in *.
      assert (0 < U) by reflexivity.
      assert (U * (X2 - S) <= S) by lia.
      nia.
Qed.

(** The arithmetic of accumulated roundings, for [U = 2^53]. *)
Section Accumulate.
Variable U : Z.
Hypothesis HU : 0 < U.

Lemma pow_U_pos (n : nat) : 0 < U ^ Z.of_nat n.
Proof. apply Z.pow_pos_nonneg; lia. Qed.

Lemma pow_U_le (n : nat) : U ^ Z.of_nat n <= (U + 1) ^ Z.of_nat n.
Proof. apply Z.pow_le_mono_l; lia. Qed.

Lemma pow_succ_nat (b : Z) (n : nat) : b ^ Z.of_nat (S n) = b * b ^ Z.of_nat n.
Proof. rewrite Nat2Z.inj_succ. apply Z.pow_succ_r; lia. Qed.

(** One more rounded addition. *)
Lemma within_step (n : nat) (u A a u' : Z) :
  0 <= A -> 0 <= a ->
  U ^ Z.of_nat n * Z.abs (u - A) <= ((U + 1) ^ Z.of_nat n - U ^ Z.of_nat n) * A ->
  U * Z.abs (u' - (u + a)) <= u + a ->
  U ^ Z.of_nat (S n) * Z.abs (u' - (A + a)) <=
    ((U + 1) ^ Z.of_nat (S n) - U ^ Z.of_nat (S n)) * (A + a).
Proof.
  intros HA Ha H1 H2. rewrite !pow_succ_nat.
  pose proof (pow_U_pos n) as Q0. pose proof (pow_U_le n) as PQ.
  set (P := (U + 1) ^ Z.of_nat n) in *. set (Q := U ^ Z.of_nat n) in *.
  assert (T : Z.abs (u' - (A + a)) <= Z.abs (u' - (u + a)) + Z.abs (u - A)).
  { replace (u' - (A + a)) with ((u' - (u + a)) + (u - A)) by ring. apply Z.abs_triangle. }
  assert (Y : u <= A + Z.abs (u - A)) by lia.
  set (x := Z.abs (u' - (u + a))) in *. set (y := Z.abs (u - A)) in *.
  set (z := Z.abs (u' - (A + a))) in *.
  assert (x0 : 0 <= x) by apply Z.abs_nonneg.
  assert (y0 : 0 <= y) by apply Z.abs_nonneg.
  assert (E1 : U * Q * z <= Q * (U * x) + U * (Q * y)) by nia.
  assert (E2 : Q * (U * x) <= Q * (u + a)) by (apply Z.mul_le_mono_nonneg_l; lia).
  assert (E3 : U * (Q * y) <= U * ((P - Q) * A)) by (apply Z.mul_le_mono_nonneg_l; lia).
  assert (E4 : Q * u <= Q * A + (P - Q) * A) by nia.
  assert (E5 : 0 <= (U * (P - Q) + (P - Q)) * a) by nia.
  nia.
Qed.

(** A sum that fits leaves room for the running total. *)
Lemma fits_step (n : nat) (k : nat) (u A a R B : Z) :
  0 <= A -> 0 <= a -> 0 <= R -> 0 <= u ->
  U ^ Z.of_nat n * Z.abs (u - A) <= ((U + 1) ^ Z.of_nat n - U ^ Z.of_nat n) * A ->
  (U + 1) ^ Z.of_nat (S n + k) * (A + a + R) < U ^ Z.of_nat (S n + k) * B ->
  (U + 1) * (u + a) < U * B.
Proof.
  intros HA Ha HR Hu H1 H2.
  rewrite !Nat2Z.inj_add, !Z.pow_add_r, !pow_succ_nat in H2 by lia.
  pose proof (pow_U_pos n) as Q0. pose proof (pow_U_le n) as PQ.
  pose proof (pow_U_pos k) as Qk. pose proof (pow_U_le k) as PQk.
  set (P := (U + 1) ^ Z.of_nat n) in *. set (Q := U ^ Z.of_nat n) in *.
  set (Pk := (U + 1) ^ Z.of_nat k) in *. set (Qk' := U ^ Z.of_nat k) in *.
  assert (Y : u <= A + Z.abs (u - A)) by lia.
  set (y := Z.abs (u - A)) in *.
  assert (E4 : Q * u <= P * A) by nia.
  assert (E5 : Q * ((U + 1) * (u + a)) <= (U + 1) * P * (A + a)).
  { assert (Q * a <= P * a) by (apply Z.mul_le_mono_nonneg_r; lia).
    assert (0 <= (U + 1) * (P * A + P * a - Q * u - Q * a))
      by (apply Z.mul_nonneg_nonneg; lia).
    lia. }
  assert (E6 : (U + 1) * P * (A + a) * Qk' <= (U + 1) * P * Pk * (A + a + R)).
  { assert (0 <= (U + 1) * P * (A + a)) by nia.
    assert ((U + 1) * P * (A + a) * Qk' <= (U + 1) * P * (A + a) * Pk) by nia.
    assert ((U + 1) * P * (A + a) * Pk <= (U + 1) * P * Pk * (A + a + R)) by nia.
    lia. }
  assert (E7 : Q * Qk' * ((U + 1) * (u + a)) < Q * Qk' * (U * B)) by nia.
  assert (0 < Q * Qk') by nia.
  apply (Z.mul_lt_mono_pos_l (Q * Qk')); assumption.
Qed.
End Accumulate.
Lemma scaled_value_nonneg (x : float) :
  nonneg_finite x = true -> 0 <= scaled_value x.
Proof.
  unfold nonneg_finite, scaled_value.
  destruct (Prim2SF x) as [s|s| |[|] m e]; cbn [nonneg_finite_SF units_SF cond_Zopp];
    try discriminate; lia.
Qed.

Lemma exact_sum_nonneg (l : list float) :
  Forall (fun a => nonneg_finite a = true) l -> 0 <= exact_sum l.
Proof.
  induction 1 as [|a l Ha _ IH]; cbn [exact_sum fold_right]; [lia|].
  pose proof (scaled_value_nonneg a Ha). fold (exact_sum l). lia.
Qed.

Lemma exact_sum_app (l1 l2 : list float) :
  exact_sum (l1 ++ l2) = exact_sum l1 + exact_sum l2.
Proof.
  induction l1 as [|a l1 IH]; cbn [app exact_sum fold_right]; [reflexivity|].
  fold (exact_sum (l1 ++ l2)). fold (exact_sum l1). rewrite IH. ring.
Qed.

Lemma exact_sum_perm (l l' : list float) :
  Permutation l l' -> exact_sum l = exact_sum l'.
Proof.
  induction 1; cbn [exact_sum fold_right]; try fold (exact_sum l); try fold (exact_sum l');
    lia.
Qed.

Lemma add_nonneg (x y : float) :
  nonneg_finite x = true -> nonneg_finite y = true ->
  (Prim2SF (x + y)%float = S754_infinity false /\
   2 ^ 53 * 2 ^ 2098 <= (2 ^ 53 + 1) * (scaled_value x + scaled_value y)) \/
  (nonneg_finite (x + y)%float = true /\
   2 ^ 53 * Z.abs (scaled_value (x + y)%float - (scaled_value x + scaled_value y))
     <= scaled_value x + scaled_value y).
Proof.
  unfold nonneg_finite, scaled_value. rewrite add_spec. intros Hx Hy.
  apply SFadd_nonneg; auto using Prim2SF_valid.
Qed.

(** Infinity stays through the additions that follow. *)
Lemma sum_from_infinity (l : list float) :
  forall acc : float,
    Prim2SF acc = S754_infinity false ->
    Forall (fun a => nonneg_finite a = true) l ->
    fold_left PrimFloat.add l acc = infinity.
Proof.
  induction l as [|a l IH]; intros acc Hacc HF; cbn [fold_left].
  - apply Prim2SF_inj. rewrite Hacc. reflexivity.
  - apply Forall_cons_iff in HF as [Ha HF]. apply IH; [|exact HF].
    rewrite add_spec, Hacc. unfold nonneg_finite in Ha.
    destruct (Prim2SF a) as [s|s| |[|] m e]; try discriminate; reflexivity.
Qed.

(** The additions of [sum] from a running total [acc] that is within the
    rounding of [n] additions of the exact [A]. *)
Lemma sum_from (l : list float) :
  forall (acc : float) (A : Z) (n : nat),
    nonneg_finite acc = true -> 0 <= A ->
    (2 ^ 53) ^ Z.of_nat n * Z.abs (scaled_value acc - A) <=
      ((2 ^ 53 + 1) ^ Z.of_nat n - (2 ^ 53) ^ Z.of_nat n) * A ->
    Forall (fun a => nonneg_finite a = true) l ->
    within_rounding (n + List.length l) (fold_left PrimFloat.add l acc)
      (A + exact_sum l) \/
    (fold_left PrimFloat.add l acc = infinity /\
     (2 ^ 53) ^ Z.of_nat (n + List.length l) * 2 ^ 2098 <=
     (2 ^ 53 + 1) ^ Z.of_nat (n + List.length l) * (A + exact_sum l)).
Proof.
  induction l as [|a l IH]; intros acc A n Hacc HA W HF.
  - cbn [fold_left List.length exact_sum fold_right]. rewrite Nat.add_0_r, Z.add_0_r.
    left. split; assumption.
  - apply Forall_cons_iff in HF as [Ha HF].
    pose proof (scaled_value_nonneg a Ha) as Ha0.
    pose proof (scaled_value_nonneg acc Hacc) as Hu0.
    pose proof (exact_sum_nonneg l HF) as HS0.
    cbn [fold_left List.length exact_sum fold_right] in *. fold (exact_sum l) in *.
    replace (n + S (List.length l))%nat with (S n + List.length l)%nat by lia.
    replace (A + (scaled_value a + exact_sum l)) with (A + scaled_value a + exact_sum l)
      by ring.
    destruct (add_nonneg acc a Hacc Ha) as [[Inf Big]|[Fin Err]].
    + right. split; [exact (sum_from_infinity l _ Inf HF)|].
      apply Z.le_ngt. intros Fit.
      pose proof (fits_step (2 ^ 53) eq_refl n (List.length l) (scaled_value acc) A
                    (scaled_value a) (exact_sum l) (2 ^ 2098) HA Ha0 HS0 Hu0 W Fit).
      lia.
    + apply IH; try assumption; [lia|].
      exact (within_step (2 ^ 53) eq_refl n (scaled_value acc) A (scaled_value a) _
               HA Ha0 W Err).
Qed.

(** [sum] of amounts that are finite and not negative. *)
Lemma sum_rounded (l : list float) :
  Forall (fun a => nonneg_finite a = true) l -> rounded_sum_of (Py.sum l) l.
Proof.
  intros HF.
  destruct (sum_from l 0%float 0 0 eq_refl ltac:(lia)) as [H|[H1 H2]];
    [cbn; lia | exact HF | |].
  - left. cbn [Nat.add] in H. rewrite Z.add_0_l in H. exact H.
  - right. split; [exact H1|]. unfold sum_fits.
    cbn [Nat.add] in H2. rewrite Z.add_0_l in H2.
    change (2 ^ 1024 * 2 ^ 1074) with (2 ^ 2098). lia.
Qed.

Lemma sum_fits_perm (l l' : list float) :
  Permutation l l' -> sum_fits l <-> sum_fits l'.
Proof.
  intros P. unfold sum_fits.
  now rewrite (Permutation_length P), (exact_sum_perm _ _ P).
Qed.

(** The float sum of the amounts in another order is a rounded sum of
    the same amounts. *)
Lemma sum_rounded_perm (l order : list float) :
  Forall (fun a => nonneg_finite a = true) l -> Permutation l order ->
  rounded_sum_of (Py.sum order) l.
Proof.
  intros HF P.
  pose proof (sum_rounded order (Permutation_Forall P HF)) as H.
  unfold rounded_sum_of in *.
  rewrite (Permutation_length P), (exact_sum_perm _ _ P), (sum_fits_perm _ _ P).
  exact H.
Qed.

(** A sum that fits is finite. *)
Lemma rounded_sum_fits (x : float) (l : list float) :
  rounded_sum_of x l -> sum_fits l ->
  within_rounding (List.length l) x (exact_sum l).
Proof. intros [H|[_ H]] Fit; [exact H|contradiction]. Qed.

Lemma sum_fits_prefix (l1 l2 : list float) :
  Forall (fun a => nonneg_finite a = true) (l1 ++ l2) ->
  sum_fits (l1 ++ l2) -> sum_fits l1.
Proof.
  intros HF. apply Forall_app in HF as [H1 H2].
  pose proof (exact_sum_nonneg _ H1) as S1. pose proof (exact_sum_nonneg _ H2) as S2.
  unfold sum_fits. rewrite length_app, exact_sum_app, Nat2Z.inj_add, !Z.pow_add_r by lia.
  pose proof (pow_U_pos (2 ^ 53) ltac:(reflexivity) (List.length l1)) as Q1.
  pose proof (pow_U_pos (2 ^ 53) ltac:(reflexivity) (List.length l2)) as Q2.
  pose proof (pow_U_le (2 ^ 53) ltac:(reflexivity) (List.length l1)) as PQ1.
  pose proof (pow_U_le (2 ^ 53) ltac:(reflexivity) (List.length l2)) as PQ2.
  set (P1 := (2 ^ 53 + 1) ^ Z.of_nat (List.length l1)) in *.
  set (P2 := (2 ^ 53 + 1) ^ Z.of_nat (List.length l2)) in *.
  set (U1 := (2 ^ 53) ^ Z.of_nat (List.length l1)) in *.
  set (U2 := (2 ^ 53) ^ Z.of_nat (List.length l2)) in *.
  set (W := 2 ^ 1024 * 2 ^ 1074). set (A := exact_sum l1) in *. set (B := exact_sum l2) in *.
  intros H.
  assert (E1 : P1 * A * U2 <= P1 * P2 * (A + B)).
  { assert (0 <= P1 * A) by nia.
    assert (P1 * A * U2 <= P1 * A * P2) by (apply Z.mul_le_mono_nonneg_l; lia).
    assert (0 <= P1 * P2 * B) by nia. lia. }
  assert (E2 : U2 * (P1 * A) < U2 * (U1 * W)) by lia.
  apply (Z.mul_lt_mono_pos_l U2); assumption.
Qed.

End Rounding.

(** ** Donor *)

Lemma Prim2SF_inj (x y : float) : Prim2SF x = Prim2SF y -> x = y.
Proof.
  intros H. rewrite <- (SF2Prim_Prim2SF x), <- (SF2Prim_Prim2SF y).
  now rewrite H.
Qed.

(** Two amounts added to the start value 0 in either order. *)
Lemma SFadd_from_zero (a b : spec_float) :
  SFadd prec emax (SFadd prec emax (S754_zero false) a) b =
  SFadd prec emax (SFadd prec emax (S754_zero false) b) a.
Proof.
  destruct a as [sa|sa| |sa ma ea], b as [sb|sb| |sb mb eb];
    try (destruct sa); try (destruct sb); try reflexivity.
  all: cbn [SFadd]; now rewrite Z.min_comm, Z.add_comm.
Qed.

Lemma sum_pair_commutes (a b : float) : Py.sum [a; b] = Py.sum [b; a].
Proof.
  unfold Py.sum; simpl. apply Prim2SF_inj.
  rewrite !add_spec. apply SFadd_from_zero.
Qed.

(** The donations of a donor after it was built and given amounts in
    two runs of [add_donation] calls, read after each run. *)
Lemma donations_after_add_donation (w : World) (name : string)
    (initial : option (list float)) (amounts1 amounts2 : list float) :
  let given := match initial with Some l => l | None => [] end in
  let donor := fst (new_Donor w name initial) in
  let w0 := snd (new_Donor w name initial) in
  exists w1 obj1 w2 obj2,
    for_each (fun w a => add_donation w donor a) amounts1 w0 = Ok w1 /\
    load w1 donor = Ok obj1 /\
    donations obj1 = given ++ amounts1 /\
    for_each (fun w a => add_donation w donor a) amounts2 w1 = Ok w2 /\
    load w2 donor = Ok obj2 /\
    donations obj2 = given ++ amounts1 ++ amounts2.
Proof.
  intros given donor w0.
  assert (H0 : load w0 donor = Ok (DonorM.init name initial))
    by apply load_alloc_new.
  destruct (add_donations_load amounts1 w0 donor _ H0) as (w1 & R1 & L1).
  destruct (add_donations_load amounts2 w1 donor _ L1) as (w2 & R2 & L2).
  simpl in L1, L2.
  eexists w1, _, w2, _.
  split; [exact R1|]. split; [exact L1|]. split; [reflexivity|].
  split; [exact R2|]. split; [exact L2|].
  simpl. now rewrite <- app_assoc.
Qed.

(** C3. A donor's [total_donations] is the sum of the initial donations
    and of every amount passed to [add_donation] since, up to the
    rounding of float addition, and so is the float sum of the same
    amounts in any other order. For [n] amounts that are finite and not
    negative, with exact sum [S], the total differs from [S] by at most
    [((1 + 2^-53)^n - 1) * S], or it is infinity, and infinity only
    when [(1 + 2^-53)^n * S] reaches 2^1024 ([rounded_sum_of]). The
    total follows the list at each reading: read after a first run of
    [add_donation] calls it is the sum up to there, read again after
    more calls it is the sum of all of them. *)
Theorem total_donations_within_rounding_of_exact_sum :
  forall (w : World) (name : string) (initial : option (list float))
         (amounts1 amounts2 : list float),
    let given := match initial with Some l => l | None => [] end in
    let donor := fst (new_Donor w name initial) in
    let w0 := snd (new_Donor w name initial) in
    let all := given ++ amounts1 ++ amounts2 in
    Forall (fun a => nonneg_finite a = true) all ->
    exists w1 obj1 w2 obj2,
      for_each (fun w a => add_donation w donor a) amounts1 w0 = Ok w1 /\
      load w1 donor = Ok obj1 /\
      donations obj1 = given ++ amounts1 /\
      rounded_sum_of (DonorM.total_donations obj1) (given ++ amounts1) /\
      for_each (fun w a => add_donation w donor a) amounts2 w1 = Ok w2 /\
      load w2 donor = Ok obj2 /\
      donations obj2 = all /\
      rounded_sum_of (DonorM.total_donations obj2) all /\
      (forall (order : list float) (other : string),
          Permutation all order ->
          rounded_sum_of (DonorM.total_donations (mkDonor other order)) all) /\
      (sum_fits all ->
       within_rounding (List.length (given ++ amounts1))
         (DonorM.total_donations obj1) (exact_sum (given ++ amounts1)) /\
       within_rounding (List.length all)
         (DonorM.total_donations obj2) (exact_sum all) /\
       (forall (order : list float) (other : string),
           Permutation all order ->
           within_rounding (List.length all)
             (DonorM.total_donations (mkDonor other order)) (exact_sum all))).
Proof.
  intros w name initial amounts1 amounts2 given donor w0 all Hall.
  destruct (donations_after_add_donation w name initial amounts1 amounts2)
    as (w1 & obj1 & w2 & obj2 & R1 & L1 & D1 & R2 & L2 & D2).
  fold given in D1, D2. fold donor in R1, L1, R2, L2. fold w0 in R1.
  exists w1, obj1, w2, obj2.
  assert (Hall1 : Forall (fun a => nonneg_finite a = true)
                    ((given ++ amounts1) ++ amounts2))
    by (rewrite <- app_assoc; exact Hall).
  assert (T1 : rounded_sum_of (DonorM.total_donations obj1) (given ++ amounts1)).
  { unfold DonorM.total_donations. rewrite D1.
    apply sum_rounded. apply Forall_app in Hall1. apply Hall1. }
  assert (T2 : rounded_sum_of (DonorM.total_donations obj2) all).
  { unfold DonorM.total_donations. rewrite D2. now apply sum_rounded. }
  assert (T3 : forall (order : list float) (other : string),
             Permutation all order ->
             rounded_sum_of (DonorM.total_donations (mkDonor other order)) all).
  { intros order other Hperm. now apply sum_rounded_perm. }
  split; [exact R1|]. split; [exact L1|]. split; [exact D1|].
  split; [exact T1|].
  split; [exact R2|]. split; [exact L2|]. split; [exact D2|].
  split; [exact T2|]. split; [exact T3|].
  intros Hfits.
  split; [|split].
  - apply rounded_sum_fits; [exact T1|].
    apply (sum_fits_prefix _ amounts2); [exact Hall1|].
    unfold all in Hfits. now rewrite app_assoc in Hfits.
  - now apply rounded_sum_fits.
  - intros order other Hperm. apply rounded_sum_fits; [now apply T3|exact Hfits].
Qed.

(** A donor built with 1e16 and given 1 twice: the total read after the
    first gift and after the second is 1e16 both times, within the
    rounding of the exact sums 1e16 + 1 and 1e16 + 2; in the order
    1, 1, 1e16 the amounts add up to 1e16 + 2. *)
Lemma total_donations_within_rounding_of_exact_sum_witness :
  Forall (fun a => nonneg_finite a = true) [1e16%float; 1%float; 1%float] /\
  sum_fits [1e16%float; 1%float; 1%float] /\
  exists w1 obj1 w2 obj2,
    for_each (fun w a => add_donation w 0 a) [1%float]
      (world_of_one (mkDonor "A" [1e16%float])) = Ok w1 /\
    load w1 0 = Ok obj1 /\
    donations obj1 = [1e16%float; 1%float] /\
    DonorM.total_donations obj1 = 1e16%float /\
    within_rounding 2 (DonorM.total_donations obj1)
      (exact_sum [1e16%float; 1%float]) /\
    for_each (fun w a => add_donation w 0 a) [1%float] w1 = Ok w2 /\
    load w2 0 = Ok obj2 /\
    donations obj2 = [1e16%float; 1%float; 1%float] /\
    DonorM.total_donations obj2 = 1e16%float /\
    within_rounding 3 (DonorM.total_donations obj2)
      (exact_sum [1e16%float; 1%float; 1%float]) /\
    within_rounding 3
      (DonorM.total_donations (mkDonor "B" [1%float; 1%float; 1e16%float]))
      (exact_sum [1e16%float; 1%float; 1%float]).
Proof.
  assert (H1 : Forall (fun a => nonneg_finite a = true)
                 [1e16%float; 1%float; 1%float])
    by (repeat apply Forall_cons; try reflexivity; apply Forall_nil).
  assert (H2 : sum_fits [1e16%float; 1%float; 1%float])
    by (vm_compute; reflexivity).
  split; [exact H1|]. split; [exact H2|].
  destruct (total_donations_within_rounding_of_exact_sum
              {| heap := []; files := []; unwritable := [] |} "A"
              (Some [1e16%float]) [1%float] [1%float] H1)
    as (w1 & obj1 & w2 & obj2 & R1 & L1 & D1 & _ & R2 & L2 & D2 & _ & _ & F).
  destruct (F H2) as (F1 & F2 & F3).
  exists w1, obj1, w2, obj2.
  split; [exact R1|]. split; [exact L1|]. split; [exact D1|].
  split; [unfold DonorM.total_donations; rewrite D1; reflexivity|].
  split; [exact F1|].
  split; [exact R2|]. split; [exact L2|]. split; [exact D2|].
  split; [unfold DonorM.total_donations; rewrite D2; reflexivity|].
  split; [exact F2|].
  apply F3. apply Permutation_cons_append with (l := [_; _]).
Defined.

(** Three amounts whose float sum depends on the order, within the
    rounding. *)
Example total_donations_order_rounding :
  DonorM.total_donations (mkDonor "A" [1e16%float; 1%float; 1%float]) =
    1e16%float /\
  DonorM.total_donations (mkDonor "A" [1%float; 1%float; 1e16%float]) =
    10000000000000002%float.
Proof. split; reflexivity. Qed.

(** Beyond the bound, and with an amount below zero, the order decides
    more than a rounding. The greatest finite number and 2^969 twice
    are finite amounts, not negative, with an exact sum below 2^1024:
    added in this order they give the greatest finite number, which is
    within the rounding of the exact sum; added with the greatest last
    they give infinity, which is within no rounding of any sum. The
    amounts 1e16, 1 and -1e16, whose exact sum is 1, give 0 in this
    order and 1 when 1 is added last. *)
Lemma total_donations_order_beyond_rounding :
  let big := 0x1.fffffffffffffp+1023%float in
  let a := 0x1p+969%float in
  amounts_near_overflow = [big; a; a] /\
  Forall (fun x => nonneg_finite x = true) amounts_near_overflow /\
  (exact_sum amounts_near_overflow < 2 ^ 1024 * 2 ^ 1074)%Z /\
  Permutation amounts_near_overflow [a; a; big] /\
  DonorM.total_donations (mkDonor "A" amounts_near_overflow) = big /\
  within_rounding 3 (DonorM.total_donations (mkDonor "A" amounts_near_overflow))
    (exact_sum amounts_near_overflow) /\
  DonorM.total_donations (mkDonor "A" [a; a; big]) = infinity /\
  (forall (n : nat) (s : Z),
      ~ within_rounding n (DonorM.total_donations (mkDonor "A" [a; a; big])) s) /\
  exact_sum amounts_with_refund = scaled_value 1%float /\
  Permutation amounts_with_refund [1e16%float; (-1e16)%float; 1%float] /\
  DonorM.total_donations (mkDonor "B" amounts_with_refund) = 0%float /\
  DonorM.total_donations
    (mkDonor "B" [1e16%float; (-1e16)%float; 1%float]) = 1%float /\
  ~ within_rounding 3 (DonorM.total_donations (mkDonor "B" amounts_with_refund))
      (exact_sum amounts_with_refund).
Proof.
  cbv zeta.
  split; [reflexivity|].
  split; [repeat apply Forall_cons; try reflexivity; apply Forall_nil|].
  split; [vm_compute; reflexivity|].
  split; [unfold amounts_near_overflow;
          apply Permutation_cons_append with (l := [_; _])|].
  split; [vm_compute; reflexivity|].
  split; [split; [vm_compute; reflexivity|vm_compute; discriminate]|].
  split; [vm_compute; reflexivity|].
  split; [intros n s [H _]; vm_compute in H; discriminate|].
  split; [vm_compute; reflexivity|].
  split; [unfold amounts_with_refund; apply perm_skip, perm_swap|].
  split; [vm_compute; reflexivity|].
  split; [vm_compute; reflexivity|].
  intros [_ H]. vm_compute in H. apply H. reflexivity.
Qed.

(** [float(n)] of a length below 2^53 is the number [n] itself. *)
Lemma float_of_nat_exact (n : nat) :
  (Z.of_nat n < 2 ^ 53)%Z ->
  nonneg_finite (Py.float_of_nat n) = true /\
  scaled_value (Py.float_of_nat n) = (Z.of_nat n * 2 ^ 1074)%Z.
Proof.
  intros Hn. unfold nonneg_finite, scaled_value, Py.float_of_nat.
  destruct n as [|n]; [split; reflexivity|].
  change (Z.of_nat (S n)) with (Zpos (Pos.of_succ_nat n)) in *.
  destruct (binary_normalize_pos (Pos.of_succ_nat n) 0 ltac:(lia))
    as (m2 & e2 & R & R1 & R2 & _ & R4 & _).
  destruct (R4 Hn) as [V E].
  rewrite R. destruct (Z.leb_spec e2 971) as [L|G]; [|lia].
  rewrite Prim2SF_SF2Prim.
  - cbn [nonneg_finite_SF units_SF cond_Zopp]. split; [reflexivity|exact V].
  - cbn [valid_binary]. unfold bounded. rewrite R2. apply Z.leb_le.
    change (emax - prec)%Z with 971%Z. exact L.
Qed.

(** C4. Reading [avg_donations] of a donor without donations raises
    ZeroDivisionError to the caller. With [n >= 1] donations it returns
    [total_donations / n]: the float quotient of the total by
    [float(n)], where [float(n)] is the number [n] exactly for every
    length below 2^53 (no list is longer). *)
Theorem avg_donations_divides_total_by_count :
  (forall name : string,
      DonorM.avg_donations (mkDonor name []) = Raise ZeroDivisionError) /\
  (forall (name : string) (x : float) (l : list float),
      let self := mkDonor name (x :: l) in
      let n := DonorM.num_donations self in
      n = S (List.length l) /\
      DonorM.avg_donations self =
        Ok (PrimFloat.div (DonorM.total_donations self) (Py.float_of_nat n)) /\
      ((Z.of_nat n < 2 ^ 53)%Z ->
       nonneg_finite (Py.float_of_nat n) = true /\
       scaled_value (Py.float_of_nat n) = (Z.of_nat n * 2 ^ 1074)%Z)).
Proof.
  split.
  - reflexivity.
  - intros name x l self n.
    split; [reflexivity|]. split; [reflexivity|].
    apply float_of_nat_exact.
Qed.

(** Alice's donations 100 and 200 average 150 and are divided by the
    number 2; Bob's single 50 averages 50; the amounts 0.25, 0.25 and
    0.5 average the float nearest to one third. *)
Lemma avg_donations_divides_total_by_count_witness :
  DonorM.avg_donations (mkDonor "Alice" [100%float; 200%float])
    = Ok 150%float /\
  nonneg_finite (Py.float_of_nat 2) = true /\
  scaled_value (Py.float_of_nat 2) = (2 * 2 ^ 1074)%Z /\
  DonorM.avg_donations (mkDonor "Bob" [50%float]) = Ok 50%float /\
  DonorM.avg_donations (mkDonor "Eve" [0.25%float; 0.25%float; 0.5%float])
    = Ok 0x1.5555555555555p-2%float /\
  DonorM.avg_donations (mkDonor "Dave" []) = Raise ZeroDivisionError.
Proof.
  destruct avg_donations_divides_total_by_count as [D A].
  destruct (A "Alice"%string 100%float [200%float]) as (_ & A1 & A2).
  destruct (A2 eq_refl) as [A3 A4].
  destruct (A "Bob"%string 50%float []) as (_ & B1 & _).
  destruct (A "Eve"%string 0.25%float [0.25%float; 0.5%float]) as (_ & C1 & _).
  split; [rewrite A1; vm_compute; reflexivity|].
  split; [exact A3|]. split; [exact A4|].
  split; [rewrite B1; vm_compute; reflexivity|].
  split; [rewrite C1; vm_compute; reflexivity|].
  exact (D "Dave"%string).
Defined.

Lemma last_item_app {A : Type} (l : list A) (x : A) :
  Py.last_item (l ++ [x]) = Ok x.
Proof.
  unfold Py.last_item. rewrite rev_app_distr. reflexivity.
Qed.

Lemma last_donation_total (self : Donor) :
  exists v, DonorM.last_donation self = Ok v.
Proof.
  unfold DonorM.last_donation, Py.last_item.
  destruct (rev (donations self)); eexists; reflexivity.
Qed.

(** C5. [last_donation] of a donor without donations is [None], and no
    reading of it raises; with at least one donation it is the amount
    appended last. *)
Theorem last_donation_spec :
  (forall name : string, DonorM.last_donation (mkDonor name []) = Ok None) /\
  (forall self : Donor, exists v, DonorM.last_donation self = Ok v) /\
  (forall (name : string) (l : list float) (x : float),
      DonorM.last_donation (mkDonor name (l ++ [x])) = Ok (Some x)) /\
  (forall (self : Donor) (amount : float),
      DonorM.last_donation (DonorM.add_donation self amount) = Ok (Some amount)).
Proof.
  split; [reflexivity|].
  split; [apply last_donation_total|].
  split.
  - intros name l x. unfold DonorM.last_donation; simpl.
    now rewrite last_item_app.
  - intros self amount. unfold DonorM.last_donation, DonorM.add_donation; simpl.
    now rewrite last_item_app.
Qed.

(** ** dict *)

Section DictFacts.
Context {K : Type} (eqb : K -> K -> bool).
Hypothesis eqb_eq : forall x y, eqb x y = true <-> x = y.

Lemma eqb_same (x : K) : eqb x x = true.
Proof. now apply eqb_eq. Qed.

Lemma eqb_diff (x y : K) : x <> y -> eqb x y = false.
Proof.
  intros H. destruct (eqb x y) eqn:E; [|reflexivity].
  apply eqb_eq in E. contradiction.
Qed.

Lemma get_set_eq {V : Type} (d : list (K * V)) (k : K) (v : V) :
  Dict.get eqb (Dict.set eqb d k v) k = Some v.
Proof.
  induction d as [|[k' v'] d IH]; simpl.
  - now rewrite eqb_same.
  - destruct (eqb k' k) eqn:E; simpl; rewrite E; [reflexivity | exact IH].
Qed.

Lemma get_set_neq {V : Type} (d : list (K * V)) (k k0 : K) (v : V) :
  k0 <> k -> Dict.get eqb (Dict.set eqb d k v) k0 = Dict.get eqb d k0.
Proof.
  intros Hne. induction d as [|[k' v'] d IH]; simpl.
  - rewrite eqb_diff; [reflexivity | congruence].
  - destruct (eqb k' k) eqn:E; simpl.
    + apply eqb_eq in E; subst k'. rewrite eqb_diff; [reflexivity | congruence].
    + now rewrite IH.
Qed.

Lemma set_fresh {V : Type} (d : list (K * V)) (k : K) (v : V) :
  ~ In k (Dict.keys d) -> Dict.set eqb d k v = d ++ [(k, v)].
Proof.
  induction d as [|[k' v'] d IH]; simpl; intros H; [reflexivity|].
  rewrite eqb_diff by tauto. rewrite IH by tauto. reflexivity.
Qed.

Lemma keys_set_present {V : Type} (d : list (K * V)) (k : K) (v : V) :
  In k (Dict.keys d) -> Dict.keys (Dict.set eqb d k v) = Dict.keys d.
Proof.
  induction d as [|[k' v'] d IH]; simpl; intros H; [contradiction|].
  destruct (eqb k' k) eqn:E; simpl; [reflexivity|].
  destruct H as [H|H].
  - subst. now rewrite eqb_same in E.
  - now rewrite IH.
Qed.

Lemma keys_set_absent {V : Type} (d : list (K * V)) (k : K) (v : V) :
  ~ In k (Dict.keys d) -> Dict.keys (Dict.set eqb d k v) = Dict.keys d ++ [k].
Proof.
  intros H. rewrite set_fresh by exact H.
  unfold Dict.keys. now rewrite map_app.
Qed.

Lemma In_keys_dec {V : Type} (d : list (K * V)) (k : K) :
  In k (Dict.keys d) \/ ~ In k (Dict.keys d).
Proof.
  induction d as [|[k' v'] d IH]; simpl; [tauto|].
  destruct (eqb k' k) eqn:E.
  - apply eqb_eq in E. tauto.
  - destruct IH as [IH|IH]; [tauto|].
    right. intros [H|H]; [|tauto].
    subst. now rewrite eqb_same in E.
Qed.

Lemma NoDup_keys_set {V : Type} (d : list (K * V)) (k : K) (v : V) :
  NoDup (Dict.keys d) -> NoDup (Dict.keys (Dict.set eqb d k v)).
Proof.
  intros H. destruct (In_keys_dec d k) as [Hin|Hout].
  - now rewrite keys_set_present.
  - rewrite keys_set_absent by exact Hout.
    apply NoDup_app; [exact H | repeat constructor; auto |].
    intros x Hx [Hk|[]]. now subst.
Qed.

Lemma get_In {V : Type} (d : list (K * V)) (k : K) (v : V) :
  NoDup (Dict.keys d) -> In (k, v) d -> Dict.get eqb d k = Some v.
Proof.
  induction d as [|[k' v'] d IH]; simpl; intros Hnd Hin; [contradiction|].
  inversion Hnd as [|? ? Hout Hnd']; subst.
  destruct Hin as [Hin|Hin].
  - injection Hin as -> ->. now rewrite eqb_same.
  - rewrite eqb_diff; [now apply IH|].
    intros ->. apply Hout. unfold Dict.keys.
    change k with (fst (k, v)). now apply in_map.
Qed.

Lemma get_not_In {V : Type} (d : list (K * V)) (k : K) :
  ~ In k (Dict.keys d) -> Dict.get eqb d k = None.
Proof.
  induction d as [|[k' v'] d IH]; simpl; intros H; [reflexivity|].
  rewrite eqb_diff by tauto. apply IH. tauto.
Qed.
End DictFacts.

(** ** add_donor *)

Lemma add_donor_new_object (w : World) (self : DonorDB) (name : string) :
  load (snd (DonorDBM.add_donor w self name))
       (fst (fst (DonorDBM.add_donor w self name))) = Ok (mkDonor name []).
Proof.
  apply (load_alloc_new w (DonorM.init name None)).
Qed.

Lemma add_donor_get (w : World) (self : DonorDB) (name : string) :
  DonorDBM.get_donor (snd (fst (DonorDBM.add_donor w self name))) name =
  Some (fst (fst (DonorDBM.add_donor w self name))).
Proof.
  apply get_set_eq, String.eqb_eq.
Qed.

(** C6. [add_donor(name)] creates a Donor with no donations, stores it
    under [name] in place of any Donor that was stored there, leaves the
    other names and objects as they were, and returns the new Donor. *)
Theorem add_donor_spec :
  forall (w : World) (self : DonorDB) (name : string),
    let donor := fst (fst (DonorDBM.add_donor w self name)) in
    let self' := snd (fst (DonorDBM.add_donor w self name)) in
    let w' := snd (DonorDBM.add_donor w self name) in
    load w donor = Raise ReferenceError /\
    load w' donor = Ok (mkDonor name []) /\
    DonorDBM.get_donor self' name = Some donor /\
    (forall other : string,
        other <> name ->
        DonorDBM.get_donor self' other = DonorDBM.get_donor self other) /\
    (forall (r : ref) (obj : Donor), load w r = Ok obj -> load w' r = Ok obj).
Proof.
  intros w self name. unfold DonorDBM.add_donor, new_Donor. simpl.
  split; [apply load_fresh|].
  split; [apply (load_alloc_new w (DonorM.init name None))|].
  split; [apply get_set_eq, String.eqb_eq|].
  split.
  - intros other Hne. apply get_set_neq; [apply String.eqb_eq | exact Hne].
  - intros r obj H. now apply (load_alloc_old w (DonorM.init name None)).
Qed.

(** The Donor [add_donor] returns is the stored object: a donation added
    through the returned reference is seen through [get_donor]. *)
Lemma add_donor_returns_stored_object (w : World) (self : DonorDB)
    (name : string) (amount : float) :
  let donor := fst (fst (DonorDBM.add_donor w self name)) in
  let self' := snd (fst (DonorDBM.add_donor w self name)) in
  let w' := snd (DonorDBM.add_donor w self name) in
  exists w'' found,
    add_donation w' donor amount = Ok w'' /\
    DonorDBM.get_donor self' name = Some found /\
    load w'' found = Ok (mkDonor name [amount]).
Proof.
  intros donor self' w'.
  pose proof (add_donor_new_object w self name) as Hnew.
  destruct (add_donation_load w' donor _ amount Hnew) as (w'' & Hadd & Hload & _).
  exists w'', donor. repeat split; try assumption.
  apply add_donor_get.
Qed.

(** ** send_letter *)

Lemma THANK_YOU_LETTER_text (a0 : string) (amount : float) :
  THANK_YOU_LETTER a0 (Some amount) =
  Ok (Fmt.LF ++ "Dear " ++ a0 ++ "," ++ Fmt.LF ++ Fmt.LF
      ++ "Thank you for your donation of $"
      ++ Fmt.format_f Fmt.SignDefault 0 2 amount ++ "." ++ Fmt.LF)%string.
Proof.
  unfold THANK_YOU_LETTER, Fmt.format_f_optional, bind, Fmt.format_s, Fmt.ljust.
  simpl. rewrite append_assoc. reflexivity.
Qed.

(** C7. For a donor with donations [10.0, 25.5] [send_letter] returns
    the template with the donor's name, and its donation line reads
    [Thank you for your donation of $25.50.]: the last donation with two
    decimals after a dollar sign. *)
Theorem send_letter_formats_last_donation :
  forall (w : World) (donor : ref) (obj : Donor),
    load w donor = Ok obj ->
    donations obj = [10%float; 25.5%float] ->
    DonorDBM.send_letter w donor =
    Ok (Fmt.LF ++ "Dear " ++ DonorM.name obj ++ "," ++ Fmt.LF
        ++ Fmt.LF
        ++ "Thank you for your donation of $25.50." ++ Fmt.LF)%string.
Proof.
  intros w donor obj Hload Hdon.
  unfold DonorDBM.send_letter. rewrite Hload. simpl.
  unfold DonorM.last_donation. rewrite Hdon. simpl.
  rewrite THANK_YOU_LETTER_text. reflexivity.
Qed.

Lemma send_letter_formats_last_donation_witness :
  DonorDBM.send_letter (world_of_one (mkDonor "Alice" [10%float; 25.5%float])) 0 =
  Ok (Fmt.LF ++ "Dear Alice," ++ Fmt.LF ++ Fmt.LF
      ++ "Thank you for your donation of $25.50." ++ Fmt.LF)%string.
Proof.
  apply (send_letter_formats_last_donation
           (world_of_one (mkDonor "Alice" [10%float; 25.5%float])) 0
           (mkDonor "Alice" [10%float; 25.5%float])); reflexivity.
Defined.

Lemma send_letter_no_donations (w : World) (donor : ref) (obj : Donor) :
  load w donor = Ok obj ->
  donations obj = [] ->
  DonorDBM.send_letter w donor = Raise TypeError.
Proof.
  intros Hload Hdon. unfold DonorDBM.send_letter. rewrite Hload. simpl.
  unfold DonorM.last_donation. rewrite Hdon. reflexivity.
Qed.

(** C8. For a donor without donations [send_letter] returns no letter:
    [last_donation] is [None], and the two-decimal float format of the
    template raises TypeError on it. *)
Theorem send_letter_without_donations_raises :
  forall (w : World) (name : string),
    let donor := fst (new_Donor w name None) in
    let w' := snd (new_Donor w name None) in
    DonorDBM.send_letter w' donor = Raise TypeError /\
    ~ (exists letter : string, DonorDBM.send_letter w' donor = Ok letter).
Proof.
  intros w name donor w'.
  assert (H : DonorDBM.send_letter w' donor = Raise TypeError).
  { apply (send_letter_no_donations w' donor (DonorM.init name None));
      [apply load_alloc_new | reflexivity]. }
  split; [exact H|].
  intros [letter Hl]. rewrite H in Hl. discriminate.
Qed.

(* ================================================================== *)
(** ** The donor report: its text *)

Lemma report_rows_app (w : World) (l1 l2 : list ref) :
  report_rows w (l1 ++ l2) =
  (a <- report_rows w l1 ;; b <- report_rows w l2 ;; Ok (a ++ b)%string).
Proof.
  induction l1 as [|r l1 IH]; simpl.
  - destruct (report_rows w l2); reflexivity.
  - destruct (report_row w r) as [a|e]; simpl; [|reflexivity].
    rewrite IH.
    destruct (report_rows w l1) as [b|e]; simpl; [|reflexivity].
    destruct (report_rows w l2) as [c|e]; simpl; [|reflexivity].
    now rewrite append_assoc.
Qed.

Lemma report_group_rows (w : World) (group : list ref) :
  forall report : string,
    DonorDBM.report_group w report group =
    (b <- report_rows w group ;; Ok (report ++ b)%string).
Proof.
  unfold DonorDBM.report_group.
  induction group as [|r group IH]; intros report; simpl.
  - now rewrite append_nil_r.
  - unfold report_row.
    destruct (load w r) as [obj|e]; simpl; [|reflexivity].
    destruct (DonorM.avg_donations obj) as [avg|e]; simpl; [|reflexivity].
    rewrite IH.
    destruct (report_rows w group) as [b|e]; simpl; [|reflexivity].
    now rewrite append_assoc.
Qed.

Lemma report_entries_rows (w : World) (entries : list (float * list ref)) :
  forall report : string,
    for_each (fun report entry => DonorDBM.report_group w report (snd entry))
      entries report =
    (b <- report_rows w (List.concat (map snd entries)) ;; Ok (report ++ b)%string).
Proof.
  induction entries as [|[t g] entries IH]; intros report; simpl.
  - now rewrite append_nil_r.
  - rewrite report_group_rows, report_rows_app.
    destruct (report_rows w g) as [a|e]; simpl; [|reflexivity].
    rewrite IH.
    destruct (report_rows w (List.concat (map snd entries))) as [b|e]; simpl;
      [|reflexivity].
    now rewrite append_assoc.
Qed.

(** The report is the head, the rows of the donors in the order of the
    sorted groups, and two line feeds. *)
Lemma get_donor_report_rows (w : World) (self : DonorDB) :
  DonorDBM.get_donor_report w self =
  (donor_dict <- DonorDBM.group_by_total w self ;;
   body <- report_rows w (List.concat (map snd (DonorDBM.descending donor_dict))) ;;
   Ok (DonorDBM.report_head ++ body ++ Fmt.LF ++ Fmt.LF)%string).
Proof.
  unfold DonorDBM.get_donor_report.
  destruct (DonorDBM.group_by_total w self) as [dd|e]; cbn [bind];
    [|reflexivity].
  rewrite report_entries_rows.
  destruct (report_rows w _) as [b|e]; cbn [bind]; [|reflexivity].
  now rewrite append_assoc.
Qed.

Lemma report_rows_lines (w : World) (l : list ref) :
  forall body : string,
    report_rows w l = Ok body ->
    exists lines : list string,
      body = join_lines lines /\
      Forall2
        (fun donor line =>
           exists obj avg,
             load w donor = Ok obj /\
             DonorM.avg_donations obj = Ok avg /\
             line = REPORT_LINE (DonorM.name obj) (DonorM.total_donations obj)
                      (DonorM.num_donations obj) avg)
        l lines.
Proof.
  induction l as [|r l IH]; intros body H; simpl in H.
  - injection H as <-. exists []. split; [reflexivity | constructor].
  - unfold report_row in H.
    destruct (load w r) as [obj|e] eqn:Hl; simpl in H; [|discriminate].
    destruct (DonorM.avg_donations obj) as [avg|e] eqn:Ha; simpl in H;
      [|discriminate].
    destruct (report_rows w l) as [b|e]; simpl in H; [|discriminate].
    injection H as <-.
    destruct (IH b eq_refl) as (lines & -> & HF).
    eexists (_ :: lines). split.
    + simpl. rewrite append_assoc. reflexivity.
    + constructor; [|exact HF].
      exists obj, avg. rewrite Hl. repeat split. exact Ha.
Qed.

Lemma length_format_f (o : Fmt.sign_option) (w p : nat) (x : float) :
  w <= String.length (Fmt.format_f o w p x).
Proof.
  unfold Fmt.format_f. destruct (Fmt.fixed_parts p x) as [negative digits].
  rewrite length_rjust. lia.
Qed.

Lemma REPORT_LINE_columns (a0 : string) (a1 : float) (a2 : nat) (a3 : float) :
  REPORT_LINE a0 a1 a2 a3 = join (line_columns a0 a1 a2 a3).
Proof.
  unfold REPORT_LINE, join, line_columns. simpl.
  now rewrite append_nil_r.
Qed.

Lemma line_columns_wide (a0 : string) (a1 : float) (a2 : nat) (a3 : float) :
  Forall2 (fun width col => width <= String.length col)
    column_widths (line_columns a0 a1 a2 a3).
Proof.
  unfold column_widths, line_columns.
  apply Forall2_cons; [|apply Forall2_cons; [|apply Forall2_cons;
    [|apply Forall2_cons; [|apply Forall2_nil]]]].
  - unfold Fmt.format_s. rewrite length_ljust. lia.
  - rewrite length_append. pose proof (length_format_f Fmt.SignSpace 12 2 a1).
    simpl String.length at 1. lia.
  - unfold Fmt.format_d. rewrite length_rjust. lia.
  - apply length_format_f.
Qed.

Lemma line_columns_exact (a0 : string) (a1 : float) (a2 : nat) (a3 : float) :
  String.length (REPORT_LINE a0 a1 a2 a3) = 90 ->
  map String.length (line_columns a0 a1 a2 a3) = column_widths.
Proof.
  rewrite REPORT_LINE_columns.
  pose proof (line_columns_wide a0 a1 a2 a3) as H.
  unfold line_columns, column_widths, join in *.
  inversion H as [|? c1 ? ? H1 H']; subst; clear H.
  inversion H' as [|? c2 ? ? H2 H'']; subst; clear H'.
  inversion H'' as [|? c3 ? ? H3 H''']; subst; clear H''.
  inversion H''' as [|? c4 ? ? H4 _]; subst; clear H'''.
  simpl fold_right. intros Hlen. simpl map.
  cbn [String.length] in Hlen, H2 |- *.
  rewrite !length_append in Hlen. cbn [String.length] in Hlen.
  rewrite !length_append in Hlen. cbn [String.length] in Hlen.
  repeat f_equal; lia.
Qed.

(** C9. A report that [get_donor_report] returns starts with a line feed
    and the header line with the titles [Donor Name], [Total Given],
    [Num Gifts] and [Average Gift]; then come a line of exactly 90
    dashes, the data lines, and two line feeds. The header's columns,
    each with the bar and blank that lead it, are 50, 14, 12 and 14
    characters wide, and so are the columns of every data line of 90
    characters (a value too long for its column widens it). *)
Theorem get_donor_report_layout :
  forall (w : World) (self : DonorDB) (report : string),
    DonorDBM.get_donor_report w self = Ok report ->
    let header :=
      "Donor Name                                        | Total Given | Num Gifts | Average Gift"%string in
    let dashes := Py.repeat_string "-" 90 in
    (exists lines : list string,
        report = (Fmt.LF ++ header ++ Fmt.LF ++ dashes ++ Fmt.LF
                  ++ join_lines lines ++ Fmt.LF ++ Fmt.LF)%string /\
        Forall
          (fun line =>
             exists a0 a1 a2 a3,
               line = join (line_columns a0 a1 a2 a3) /\
               Forall2 (fun width col => width <= String.length col)
                 column_widths (line_columns a0 a1 a2 a3) /\
               (String.length line = 90 ->
                map String.length (line_columns a0 a1 a2 a3) = column_widths))
          lines) /\
    header = REPORT_HEADER "Donor Name" "Total Given" "Num Gifts" "Average Gift" /\
    header = join header_columns /\
    map String.length header_columns = column_widths /\
    String.length header = 90 /\
    String.length dashes = 90 /\
    (forall n : nat, n < 90 -> String.get n dashes = Some "-"%char).
Proof.
  intros w self report H header dashes.
  split; [|split; [reflexivity|split; [reflexivity|split; [reflexivity|
          split; [reflexivity|split; [reflexivity|]]]]]].
  - rewrite get_donor_report_rows in H.
    destruct (DonorDBM.group_by_total w self) as [dd|e]; simpl in H;
      [|discriminate].
    destruct (report_rows w _) as [body|e] eqn:Hrows; simpl in H;
      [|discriminate].
    injection H as <-.
    destruct (report_rows_lines _ _ _ Hrows) as (lines & -> & HF).
    exists lines. split.
    + subst header dashes. reflexivity.
    + clear Hrows. induction HF as [|r line l lines Hline HF IH];
        constructor; [|exact IH].
      destruct Hline as (obj & avg & _ & _ & ->).
      eexists _, _, _, _.
      split; [apply REPORT_LINE_columns|].
      split; [apply line_columns_wide|].
      apply line_columns_exact.
  - intros n Hn. subst dashes.
    do 90 (destruct n as [|n]; [reflexivity|]). lia.
Qed.

(* ================================================================== *)
(** ** The order of floats *)

Module FloatOrder.

Lemma Pos_compare_cont_Eq (p q : positive) :
  Pos.compare_cont Eq p q = Pos.compare p q.
Proof. reflexivity. Qed.

Lemma SFcompare_opp (x y : spec_float) (c : comparison) :
  SFcompare x y = Some c -> SFcompare y x = Some (CompOpp c).
Proof.
  destruct x as [sx|sx| |sx mx ex], y as [sy|sy| |sy my ey]; simpl;
    try discriminate; intros H; injection H as <-;
    try (destruct sx); try (destruct sy); try reflexivity.
  all: rewrite !Pos_compare_cont_Eq.
  all: rewrite (Z.compare_antisym ex ey), (Pos.compare_antisym mx my).
  all: destruct (ex ?= ey)%Z; simpl; try reflexivity.
  all: destruct (mx ?= my)%positive; reflexivity.
Qed.

Lemma SFcompare_trans (x y z : spec_float) (c : comparison) :
  SFcompare x y = Some c -> SFcompare y z = Some c -> SFcompare x z = Some c.
Proof.
  destruct x as [sx|sx| |sx mx ex], y as [sy|sy| |sy my ey],
           z as [sz|sz| |sz mz ez]; simpl; try discriminate;
    try (destruct sx); try (destruct sy); try (destruct sz); simpl;
    intros H1 H2; try congruence.
  all: rewrite ?Pos_compare_cont_Eq in *.
  all: injection H1 as H1; injection H2 as H2; f_equal; subst c.
  all: destruct (Z.compare_spec ex ey), (Z.compare_spec ey ez), (Z.compare_spec ex ez);
       try lia; try discriminate; try reflexivity; subst.
  all: destruct (Pos.compare_spec mx my), (Pos.compare_spec my mz), (Pos.compare_spec mx mz);
       simpl in *; try lia; try discriminate; try reflexivity.
Qed.

Lemma SFcompare_eq_l (x y z : spec_float) (c : comparison) :
  SFcompare x y = Some Eq -> SFcompare y z = Some c -> SFcompare x z = Some c.
Proof.
  destruct x as [sx|sx| |sx mx ex], y as [sy|sy| |sy my ey],
           z as [sz|sz| |sz mz ez]; simpl; try discriminate;
    try (destruct sx); try (destruct sy); try (destruct sz); simpl;
    intros H1 H2; try congruence.
  all: rewrite ?Pos_compare_cont_Eq in *.
  all: injection H1 as H1; injection H2 as H2; f_equal; subst c.
  all: destruct (Z.compare_spec ex ey); try discriminate; subst.
  all: destruct (Pos.compare_spec mx my); try discriminate; subst.
  all: reflexivity.
Qed.

Lemma SFcompare_total (x y : spec_float) :
  x <> S754_nan -> y <> S754_nan -> exists c, SFcompare x y = Some c.
Proof.
  destruct x, y; simpl; intros; try congruence; eexists; reflexivity.
Qed.

Lemma SFcompare_refl (x : spec_float) :
  x <> S754_nan -> SFcompare x x = Some Eq.
Proof.
  destruct x as [s|s| |s m e]; simpl; intros H; try congruence.
  - now destruct s.
  - rewrite Z.compare_refl, Pos_compare_cont_Eq, Pos.compare_refl. now destruct s.
Qed.

Lemma SFcompare_eq_r (x y z : spec_float) (c : comparison) :
  SFcompare x y = Some c -> SFcompare y z = Some Eq -> SFcompare x z = Some c.
Proof.
  intros H1 H2.
  apply SFcompare_opp in H1. apply SFcompare_opp in H2. simpl in H2.
  pose proof (SFcompare_eq_l _ _ _ _ H2 H1) as H.
  apply SFcompare_opp in H. now rewrite CompOpp_involutive in H.
Qed.

Lemma eqb_compare (x y : float) :
  PrimFloat.eqb x y = true <-> float_compare x y = Some Eq.
Proof.
  rewrite eqb_spec. unfold SFeqb, float_compare.
  destruct (SFcompare (Prim2SF x) (Prim2SF y)) as [[]|]; split; congruence.
Qed.

Lemma ltb_compare (x y : float) :
  PrimFloat.ltb x y = true <-> float_compare x y = Some Lt.
Proof.
  rewrite ltb_spec. unfold SFltb, float_compare.
  destruct (SFcompare (Prim2SF x) (Prim2SF y)) as [[]|]; split; congruence.
Qed.

Lemma is_nan_Prim2SF (x : float) :
  PrimFloat.is_nan x = false <-> Prim2SF x <> S754_nan.
Proof.
  unfold PrimFloat.is_nan. rewrite negb_false_iff, eqb_compare. unfold float_compare.
  split.
  - intros H E. rewrite E in H. discriminate.
  - apply SFcompare_refl.
Qed.

Lemma compare_total (x y : float) :
  PrimFloat.is_nan x = false -> PrimFloat.is_nan y = false ->
  exists c, float_compare x y = Some c.
Proof.
  rewrite !is_nan_Prim2SF. apply SFcompare_total.
Qed.

Lemma compare_not_nan (x y : float) (c : comparison) :
  float_compare x y = Some c ->
  PrimFloat.is_nan x = false /\ PrimFloat.is_nan y = false.
Proof.
  unfold float_compare. rewrite !is_nan_Prim2SF. intros H.
  split; intros E; rewrite E in H; [|destruct (Prim2SF x)]; discriminate.
Qed.

Lemma eqb_refl (x : float) : PrimFloat.is_nan x = false -> PrimFloat.eqb x x = true.
Proof.
  unfold PrimFloat.is_nan. now rewrite negb_false_iff.
Qed.

Lemma eqb_sym (x y : float) : PrimFloat.eqb x y = PrimFloat.eqb y x.
Proof.
  destruct (PrimFloat.eqb x y) eqn:E1, (PrimFloat.eqb y x) eqn:E2;
    try reflexivity.
  - apply eqb_compare, SFcompare_opp in E1. apply eqb_compare in E1. congruence.
  - apply eqb_compare, SFcompare_opp in E2. apply eqb_compare in E2. congruence.
Qed.

Lemma eqb_trans (x y z : float) :
  PrimFloat.eqb x y = true -> PrimFloat.eqb y z = true -> PrimFloat.eqb x z = true.
Proof.
  rewrite !eqb_compare. apply SFcompare_trans.
Qed.

Lemma eqb_not_nan (x y : float) :
  PrimFloat.eqb x y = true ->
  PrimFloat.is_nan x = false /\ PrimFloat.is_nan y = false.
Proof.
  rewrite eqb_compare. apply compare_not_nan.
Qed.

(** Equal floats are equal to the same floats. *)
Lemma eqb_congr (x y z : float) :
  PrimFloat.eqb x y = true -> PrimFloat.eqb x z = PrimFloat.eqb y z.
Proof.
  intros H.
  destruct (PrimFloat.eqb x z) eqn:E1, (PrimFloat.eqb y z) eqn:E2;
    try reflexivity.
  - rewrite eqb_sym in H. pose proof (eqb_trans _ _ _ H E1). congruence.
  - pose proof (eqb_trans _ _ _ H E2). congruence.
Qed.

Lemma ltb_asym (x y : float) :
  PrimFloat.ltb x y = true -> PrimFloat.ltb y x = false.
Proof.
  intros H. destruct (PrimFloat.ltb y x) eqn:E; [|reflexivity].
  apply ltb_compare in H, E. apply SFcompare_opp in H.
  unfold float_compare in E. simpl in H. congruence.
Qed.

Lemma ltb_trans (x y z : float) :
  PrimFloat.ltb x y = true -> PrimFloat.ltb y z = true -> PrimFloat.ltb x z = true.
Proof.
  rewrite !ltb_compare. apply SFcompare_trans.
Qed.

(** [x <= y] read as [not (y < x)] is transitive on numbers. *)
Lemma not_gt_trans (x y z : float) :
  PrimFloat.is_nan x = false -> PrimFloat.is_nan y = false ->
  PrimFloat.is_nan z = false ->
  PrimFloat.ltb y x = false -> PrimFloat.ltb z y = false ->
  PrimFloat.ltb z x = false.
Proof.
  intros Nx Ny Nz H1 H2.
  destruct (PrimFloat.ltb z x) eqn:E; [|reflexivity].
  destruct (compare_total x y Nx Ny) as [c1 C1].
  destruct (compare_total y z Ny Nz) as [c2 C2].
  assert (Hyx : float_compare y x <> Some Lt)
    by (intros F; apply ltb_compare in F; congruence).
  assert (Hzy : float_compare z y <> Some Lt)
    by (intros F; apply ltb_compare in F; congruence).
  apply ltb_compare in E.
  pose proof (SFcompare_opp _ _ _ C1) as O1.
  pose proof (SFcompare_opp _ _ _ C2) as O2.
  pose proof (SFcompare_opp _ _ _ E) as O3. simpl in O3.
  unfold float_compare in *.
  destruct c1, c2; simpl in O1, O2; try congruence.
  - pose proof (SFcompare_trans _ _ _ _ C1 C2). congruence.
  - pose proof (SFcompare_eq_l _ _ _ _ C1 C2). congruence.
  - pose proof (SFcompare_eq_r _ _ _ _ C1 C2). congruence.
  - pose proof (SFcompare_trans _ _ _ _ C1 C2). congruence.
Qed.

(** Two numbers neither of which is less than the other are equal. *)
Lemma not_lt_not_gt_eqb (x y : float) :
  PrimFloat.is_nan x = false -> PrimFloat.is_nan y = false ->
  PrimFloat.ltb x y = false -> PrimFloat.ltb y x = false ->
  PrimFloat.eqb x y = true.
Proof.
  intros Nx Ny H1 H2.
  destruct (compare_total x y Nx Ny) as [c C].
  destruct c.
  - now apply eqb_compare.
  - apply ltb_compare in C. congruence.
  - apply SFcompare_opp in C. simpl in C. apply ltb_compare in C. congruence.
Qed.

Lemma ltb_not_eqb (x y : float) :
  PrimFloat.ltb x y = true -> PrimFloat.eqb x y = false.
Proof.
  intros H. destruct (PrimFloat.eqb x y) eqn:E; [|reflexivity].
  apply ltb_compare in H. apply eqb_compare in E. congruence.
Qed.

End FloatOrder.

(* ================================================================== *)
(** ** sorted *)

Lemma insert_sorted_perm {A : Type} (lt : A -> A -> bool) (x : A) (l : list A) :
  Permutation (Py.insert_sorted lt x l) (x :: l).
Proof.
  induction l as [|y l IH]; simpl; [apply Permutation_refl|].
  destruct (lt x y); [apply Permutation_refl|].
  eapply Permutation_trans; [apply perm_skip, IH | apply perm_swap].
Qed.

Lemma sorted_perm {A : Type} (lt : A -> A -> bool) (l : list A) :
  Permutation (Py.sorted lt l) l.
Proof.
  unfold Py.sorted.
  enough (H : forall acc,
             Permutation (fold_left (fun acc x => Py.insert_sorted lt x acc) l acc)
               (acc ++ l)) by apply (H []).
  induction l as [|x l IH]; intros acc; simpl.
  - rewrite app_nil_r. apply Permutation_refl.
  - eapply Permutation_trans; [apply IH|].
    eapply Permutation_trans;
      [apply Permutation_app_tail, insert_sorted_perm|].
    simpl. apply Permutation_middle.
Qed.

Lemma StronglySorted_snoc {A : Type} (R : A -> A -> Prop) (l : list A) (x : A) :
  StronglySorted R l -> Forall (fun a => R a x) l -> StronglySorted R (l ++ [x]).
Proof.
  induction 1 as [|a l Hs IH Ha]; intros Hx; simpl.
  - constructor; constructor.
  - inversion Hx as [|? ? Hax Hx']; subst.
    constructor; [now apply IH|].
    apply Forall_app. split; [exact Ha | now constructor].
Qed.

Lemma StronglySorted_rev {A : Type} (R : A -> A -> Prop) (l : list A) :
  StronglySorted R l -> StronglySorted (fun a b => R b a) (rev l).
Proof.
  induction 1 as [|a l Hs IH Ha]; simpl; [constructor|].
  apply StronglySorted_snoc; [exact IH|].
  apply Forall_rev. exact Ha.
Qed.

Section SortedDistinct.
Context {A : Type} (lt eqv : A -> A -> bool) (P : A -> Prop).
Hypothesis lt_trans :
  forall a b c, lt a b = true -> lt b c = true -> lt a c = true.
Hypothesis lt_total :
  forall a b, P a -> P b -> eqv a b = false -> lt a b = false -> lt b a = true.
Hypothesis eqv_sym : forall a b, eqv a b = eqv b a.

Lemma insert_sorted_strict (x : A) (l : list A) :
  P x -> Forall P l -> Forall (fun a => eqv a x = false) l ->
  StronglySorted (fun a b => lt a b = true) l -> StronglySorted (fun a b => lt a b = true) (Py.insert_sorted lt x l).
Proof.
  intros Px. induction l as [|y l IH]; intros HP Hne Hs; simpl.
  - constructor; constructor.
  - inversion HP as [|? ? Py HP']; subst.
    inversion Hne as [|? ? Hyx Hne']; subst.
    inversion Hs as [|? ? Hs' Hy]; subst.
    destruct (lt x y) eqn:E.
    + constructor; [exact Hs|]. constructor; [exact E|].
      eapply Forall_impl; [|exact Hy]. intros z Hz. now apply (lt_trans x y z).
    + constructor; [now apply IH|].
      apply (Permutation_Forall (Permutation_sym (insert_sorted_perm lt x l))).
      constructor; [|exact Hy].
      apply lt_total; try assumption.
      now rewrite eqv_sym.
Qed.

Lemma sorted_strict (l : list A) :
  Forall P l -> StronglySorted (fun a b => eqv a b = false) l -> StronglySorted (fun a b => lt a b = true) (Py.sorted lt l).
Proof.
  unfold Py.sorted.
  enough (H : forall acc,
             Forall P acc -> Forall P l ->
             Forall (fun a => Forall (fun b => eqv a b = false) l) acc ->
             StronglySorted (fun a b => eqv a b = false) l -> StronglySorted (fun a b => lt a b = true) acc ->
             StronglySorted (fun a b => lt a b = true)
               (fold_left (fun acc x => Py.insert_sorted lt x acc) l acc)).
  { intros HP Hne. apply H; try assumption; constructor. }
  induction l as [|x l IH]; intros acc Pacc Pl Hcross Hne Hs; simpl;
    [exact Hs|].
  inversion Pl as [|? ? Px Pl']; subst.
  inversion Hne as [|? ? Hne' Hx]; subst.
  apply IH.
  - apply (Permutation_Forall (Permutation_sym (insert_sorted_perm lt x acc))).
    now constructor.
  - exact Pl'.
  - apply (Permutation_Forall (Permutation_sym (insert_sorted_perm lt x acc))).
    constructor; [exact Hx|].
    eapply Forall_impl; [|exact Hcross].
    intros a Ha. now inversion Ha.
  - exact Hne'.
  - apply insert_sorted_strict; try assumption.
    eapply Forall_impl; [|exact Hcross].
    intros a Ha. now inversion Ha.
Qed.
End SortedDistinct.

(* ================================================================== *)
(** ** The donor report: grouping *)

Lemma Permutation_concat {A : Type} (l l' : list (list A)) :
  Permutation l l' -> Permutation (List.concat l) (List.concat l').
Proof.
  induction 1 as [|x l l' H IH|x y l|l l' l'' H1 IH1 H2 IH2]; simpl.
  - apply Permutation_refl.
  - now apply Permutation_app_head.
  - rewrite !app_assoc. apply Permutation_app_tail, Permutation_app_comm.
  - eapply Permutation_trans; eassumption.
Qed.

Lemma descending_perm (donor_dict : list (float * list ref)) :
  Permutation (DonorDBM.descending donor_dict) donor_dict.
Proof.
  unfold DonorDBM.descending.
  eapply Permutation_trans;
    [apply Permutation_sym, Permutation_rev | apply sorted_perm].
Qed.

(** What [setdefault(k, []).append(x)] does: the first entry whose key
    equals [k] gets [x] at its end, or a new entry follows the others. *)
Lemma setdefault_append_cases {K V : Type} (eqb : K -> K -> bool)
    (d : list (K * list V)) (k : K) (x : V) :
  (exists d1 k' l d2,
      d = d1 ++ (k', l) :: d2 /\
      Forall (fun e => eqb (fst e) k = false) d1 /\
      eqb k' k = true /\
      Dict.setdefault_append eqb d k x = d1 ++ (k', l ++ [x]) :: d2) \/
  (Forall (fun e => eqb (fst e) k = false) d /\
   Dict.setdefault_append eqb d k x = d ++ [(k, [x])]).
Proof.
  induction d as [|[k' l] d IH]; simpl.
  - right. split; [constructor | reflexivity].
  - destruct (eqb k' k) eqn:E.
    + left. exists [], k', l, d. repeat split; auto.
    + destruct IH as [(d1 & k1 & l1 & d2 & -> & H1 & H2 & ->)|[H1 ->]].
      * left. exists ((k', l) :: d1), k1, l1, d2.
        repeat split; auto.
      * right. split; [now constructor | reflexivity].
Qed.

Lemma setdefault_append_perm {K V : Type} (eqb : K -> K -> bool)
    (d : list (K * list V)) (k : K) (x : V) :
  Permutation (List.concat (map snd (Dict.setdefault_append eqb d k x)))
    (List.concat (map snd d) ++ [x]).
Proof.
  destruct (setdefault_append_cases eqb d k x)
    as [(d1 & k' & l & d2 & -> & _ & _ & ->)|[_ ->]].
  - rewrite !map_app, !concat_app. simpl.
    rewrite <- !app_assoc. apply Permutation_app_head.
    apply Permutation_app_head.
    apply Permutation_app_comm.
  - rewrite map_app, concat_app. simpl. apply Permutation_refl.
Qed.

Lemma for_each_grouping (w : World) (l : list ref) :
  forall acc,
    Forall (fun r => exists obj, load w r = Ok obj) l ->
    for_each
      (fun donor_dict donor =>
         obj <- load w donor ;;
         Ok (Dict.setdefault_append PrimFloat.eqb donor_dict
               (DonorM.total_donations obj) donor))
      l acc = Ok (grouping w l acc).
Proof.
  induction l as [|r l IH]; intros acc H; simpl; [reflexivity|].
  inversion H as [|? ? [obj Hobj] H']; subst.
  unfold grouping; simpl. unfold total_of at 2. rewrite Hobj. simpl.
  now apply IH.
Qed.

Lemma group_by_total_live (w : World) (self : DonorDB) :
  DB_live w self ->
  DonorDBM.group_by_total w self = Ok (grouping w (DonorDBM.donors self) []).
Proof.
  intros H. unfold DonorDBM.group_by_total. now apply for_each_grouping.
Qed.

Lemma grouping_perm (w : World) (l : list ref) :
  forall acc,
    Permutation (List.concat (map snd (grouping w l acc)))
      (List.concat (map snd acc) ++ l).
Proof.
  induction l as [|r l IH]; intros acc; simpl.
  - rewrite app_nil_r. apply Permutation_refl.
  - eapply Permutation_trans; [apply IH|].
    eapply Permutation_trans;
      [apply Permutation_app_tail, setdefault_append_perm|].
    rewrite <- app_assoc. apply Permutation_refl.
Qed.

(** The rows of the report are those of the donors of the collection,
    each once. *)
Lemma report_order_perm (w : World) (self : DonorDB) :
  Permutation
    (List.concat
       (map snd (DonorDBM.descending (grouping w (DonorDBM.donors self) []))))
    (DonorDBM.donors self).
Proof.
  eapply Permutation_trans;
    [apply Permutation_concat, Permutation_map, descending_perm|].
  apply (grouping_perm w (DonorDBM.donors self) []).
Qed.

(** ** The donor report: a donor without donations *)

Lemma report_row_cases (w : World) (donor : ref) (obj : Donor) :
  load w donor = Ok obj ->
  (donations obj = [] /\ report_row w donor = Raise ZeroDivisionError) \/
  (donations obj <> [] /\ exists line, report_row w donor = Ok line).
Proof.
  intros H. unfold report_row. rewrite H. simpl.
  unfold DonorM.avg_donations.
  destruct (donations obj) as [|x l] eqn:E; simpl.
  - left. split; reflexivity.
  - right. split; [discriminate | eexists; reflexivity].
Qed.

Lemma report_rows_raise (w : World) (l : list ref) (donor : ref) (obj : Donor) :
  Forall (fun r => exists obj, load w r = Ok obj) l ->
  In donor l -> load w donor = Ok obj -> donations obj = [] ->
  report_rows w l = Raise ZeroDivisionError.
Proof.
  intros Hlive Hin Hload Hempty.
  induction l as [|r l IH]; [contradiction|].
  inversion Hlive as [|? ? [robj Hr] Hlive']; subst. simpl.
  destruct (report_row_cases w r robj Hr) as [[_ ->]|[Hne [line ->]]];
    [reflexivity|].
  simpl. destruct Hin as [->|Hin].
  - rewrite Hload in Hr. injection Hr as <-. contradiction.
  - now rewrite IH.
Qed.

Lemma report_raises_on_empty_donor (w : World) (self : DonorDB) (donor : ref)
    (obj : Donor) :
  DB_live w self ->
  In donor (DonorDBM.donors self) ->
  load w donor = Ok obj ->
  donations obj = [] ->
  DonorDBM.get_donor_report w self = Raise ZeroDivisionError.
Proof.
  intros Hlive Hin Hload Hempty.
  rewrite get_donor_report_rows, (group_by_total_live w self Hlive).
  cbn [bind].
  rewrite (report_rows_raise w _ donor obj); try assumption; [reflexivity| |].
  - apply (Permutation_Forall (Permutation_sym (report_order_perm w self))).
    exact Hlive.
  - apply (Permutation_in _ (Permutation_sym (report_order_perm w self))).
    exact Hin.
Qed.

(** C10. When a collection holds a donor whose list of donations is
    empty, [get_donor_report] raises ZeroDivisionError (from that
    donor's average) and returns no report. *)
Theorem get_donor_report_raises_on_empty_donor :
  forall (w : World) (self : DonorDB) (donor : ref) (obj : Donor),
    DB_live w self ->
    In donor (DonorDBM.donors self) ->
    load w donor = Ok obj ->
    donations obj = [] ->
    DonorM.avg_donations obj = Raise ZeroDivisionError /\
    DonorDBM.get_donor_report w self = Raise ZeroDivisionError.
Proof.
  intros w self donor obj Hlive Hin Hload Hempty.
  split.
  - unfold DonorM.avg_donations. now rewrite Hempty.
  - now apply (report_raises_on_empty_donor w self donor obj).
Qed.

(* ================================================================== *)
(** ** The donor report: groups and their order *)

Lemma StronglySorted_map {A B : Type} (f : A -> B) (R : B -> B -> Prop)
    (l : list A) :
  StronglySorted (fun a b => R (f a) (f b)) l <-> StronglySorted R (map f l).
Proof.
  induction l as [|a l IH]; simpl.
  - split; constructor.
  - split; intros H; inversion H as [|? ? Hs Ha]; subst;
      (constructor; [now apply IH|]).
    + rewrite Forall_forall in *. intros b Hb.
      apply in_map_iff in Hb. destruct Hb as (b' & <- & Hb). now apply Ha.
    + rewrite Forall_forall in *. intros b Hb.
      apply Ha. now apply in_map.
Qed.

Lemma StronglySorted_middle {A : Type} (R : A -> A -> Prop)
    (l1 l2 : list A) (a : A) :
  StronglySorted R (l1 ++ a :: l2) -> Forall (R a) l2.
Proof.
  induction l1 as [|b l1 IH]; simpl; intros H;
    inversion H as [|? ? Hs Hb]; subst; auto.
Qed.

Lemma filter_snoc {A : Type} (f : A -> bool) (l : list A) (x : A) :
  filter f (l ++ [x]) = filter f l ++ (if f x then [x] else []).
Proof.
  rewrite filter_app. simpl. now destruct (f x).
Qed.

Lemma filter_none {A : Type} (f : A -> bool) (l : list A) :
  (forall x, In x l -> f x = false) -> filter f l = [].
Proof.
  induction l as [|y l IH]; simpl; intros H; [reflexivity|].
  rewrite (H y) by now left. apply IH. intros x Hx. apply H. now right.
Qed.

Lemma groups_of_nil (tot : ref -> float) : groups_of tot [] [].
Proof.
  repeat split; try constructor; intros; contradiction.
Qed.

Lemma groups_of_step (tot : ref -> float) (p : list ref)
    (donor_dict : list (float * list ref)) (x : ref) :
  PrimFloat.is_nan (tot x) = false ->
  groups_of tot p donor_dict ->
  groups_of tot (p ++ [x])
    (Dict.setdefault_append PrimFloat.eqb donor_dict (tot x) x).
Proof.
  intros Nx (I1 & I2 & I3 & I4).
  pose proof (FloatOrder.eqb_refl _ Nx) as Rx.
  destruct (setdefault_append_cases PrimFloat.eqb donor_dict (tot x) x)
    as [(d1 & k' & g0 & d2 & Hd & H1 & Hk & ->)|[H1 ->]].
  - (* the total of [x] has its entry *)
    subst donor_dict.
    assert (Hkeys : map fst (d1 ++ (k', g0 ++ [x]) :: d2)
                    = map fst (d1 ++ (k', g0) :: d2))
      by (rewrite !map_app; reflexivity).
    assert (Hxk : PrimFloat.eqb (tot x) k' = true)
      by now rewrite FloatOrder.eqb_sym.
    assert (Hother : forall t g, In (t, g) d1 \/ In (t, g) d2 ->
                                 PrimFloat.eqb (tot x) t = false).
    { intros t g [Hin|Hin].
      - rewrite Forall_forall in H1. rewrite FloatOrder.eqb_sym.
        apply (H1 (t, g) Hin).
      - rewrite (FloatOrder.eqb_congr _ _ t Hxk).
        rewrite map_app in I2. simpl in I2.
        apply StronglySorted_middle in I2. rewrite Forall_forall in I2.
        apply I2. change t with (fst (t, g)). now apply in_map. }
    split; [|split; [|split]].
    + intros t g Hin. rewrite filter_snoc.
      apply in_app_or in Hin. destruct Hin as [Hin|[Hin|Hin]].
      * destruct (I1 t g) as [Hne Hg]; [apply in_or_app; now left|].
        rewrite (Hother t g) by now left.
        now rewrite app_nil_r.
      * injection Hin as <- <-.
        destruct (I1 k' g0) as [Hne Hg]; [apply in_or_app; right; now left|].
        rewrite Hxk. split; [now destruct g0 | now rewrite <- Hg].
      * destruct (I1 t g) as [Hne Hg];
          [apply in_or_app; right; now right|].
        rewrite (Hother t g) by now right.
        now rewrite app_nil_r.
    + now rewrite Hkeys.
    + intros r Hr. rewrite Hkeys. apply in_app_or in Hr.
      destruct Hr as [Hr|[<-|[]]]; [now apply I3|].
      exists k'. split; [|exact Hxk].
      rewrite map_app. apply in_or_app. right. now left.
    + now rewrite Hkeys.
  - (* a new entry *)
    assert (Hold : forall t, In t (map fst donor_dict) ->
                             PrimFloat.eqb (tot x) t = false).
    { intros t Hin. apply in_map_iff in Hin. destruct Hin as ([t' g] & <- & Hin).
      rewrite Forall_forall in H1. rewrite FloatOrder.eqb_sym.
      apply (H1 (t', g) Hin). }
    split; [|split; [|split]].
    + intros t g Hin. rewrite filter_snoc.
      apply in_app_or in Hin. destruct Hin as [Hin|[Hin|[]]].
      * destruct (I1 t g Hin) as [Hne Hg].
        rewrite Hold; [now rewrite app_nil_r|].
        change t with (fst (t, g)). now apply in_map.
      * injection Hin as <- <-. split; [discriminate|].
        rewrite Rx. rewrite filter_none; [reflexivity|].
        intros r Hr. destruct (PrimFloat.eqb (tot r) (tot x)) eqn:E;
          [|reflexivity].
        destruct (I3 r Hr) as (t & Ht & Hrt).
        rewrite (FloatOrder.eqb_congr _ _ (tot x) Hrt) in E.
        rewrite FloatOrder.eqb_sym, (Hold t Ht) in E. discriminate.
    + rewrite map_app. simpl. apply StronglySorted_snoc; [exact I2|].
      rewrite Forall_forall. intros t Ht.
      rewrite FloatOrder.eqb_sym. now apply Hold.
    + intros r Hr. rewrite map_app. apply in_app_or in Hr.
      destruct Hr as [Hr|[<-|[]]].
      * destruct (I3 r Hr) as (t & Ht & Hrt).
        exists t. split; [apply in_or_app; now left | exact Hrt].
      * exists (tot x). split; [apply in_or_app; right; now left | exact Rx].
    + rewrite map_app. apply Forall_app. split; [exact I4|].
      now repeat constructor.
Qed.

Lemma grouping_groups_of (w : World) (l : list ref) :
  forall p acc,
    Forall (fun r => PrimFloat.is_nan (total_of w r) = false) l ->
    groups_of (total_of w) p acc ->
    groups_of (total_of w) (p ++ l) (grouping w l acc).
Proof.
  induction l as [|x l IH]; intros p acc Hn Hg; simpl.
  - now rewrite app_nil_r.
  - inversion Hn as [|? ? Nx Hn']; subst.
    change (p ++ x :: l) with (p ++ [x] ++ l). rewrite app_assoc.
    apply IH; [exact Hn'|].
    now apply groups_of_step.
Qed.

(** The keys of [donor_dict], from the greatest down. *)
Lemma descending_strict (donor_dict : list (float * list ref)) :
  Forall (fun t => PrimFloat.is_nan t = false) (map fst donor_dict) ->
  StronglySorted (fun a b => PrimFloat.eqb a b = false) (map fst donor_dict) ->
  StronglySorted (fun a b => PrimFloat.ltb b a = true)
    (map fst (DonorDBM.descending donor_dict)).
Proof.
  intros Hn Hd. unfold DonorDBM.descending.
  apply StronglySorted_map.
  apply (StronglySorted_rev
           (fun a b : float * list ref => PrimFloat.ltb (fst a) (fst b) = true)).
  apply (sorted_strict
           (fun a b => PrimFloat.ltb (fst a) (fst b))
           (fun a b => PrimFloat.eqb (fst a) (fst b))
           (fun a => PrimFloat.is_nan (fst a) = false)).
  - intros a b c. apply FloatOrder.ltb_trans.
  - intros a b Na Nb Hne Hlt.
    destruct (PrimFloat.ltb (fst b) (fst a)) eqn:E; [reflexivity|].
    rewrite (FloatOrder.not_lt_not_gt_eqb _ _ Na Nb Hlt E) in Hne.
    discriminate.
  - intros a b. apply FloatOrder.eqb_sym.
  - rewrite Forall_forall in *. intros a Ha. apply Hn. now apply in_map.
  - apply (proj2 (StronglySorted_map fst
                    (fun a b : float => PrimFloat.eqb a b = false) donor_dict)).
    exact Hd.
Qed.

(** C2. The report [get_donor_report] returns lists the donors group by
    group: a group holds the donors of one total, all of them and in
    their order in the collection; the groups follow each other from the
    greatest total down, each total strictly less than the one before.
    Totals are numbers here (no NaN, which equals and orders nothing). *)
Theorem get_donor_report_groups_descending :
  forall (w : World) (self : DonorDB) (report : string),
    DB_live w self ->
    (forall donor, In donor (DonorDBM.donors self) ->
                   PrimFloat.is_nan (total_of w donor) = false) ->
    DonorDBM.get_donor_report w self = Ok report ->
    exists (groups : list (float * list ref)) (lines : list string),
      report = (DonorDBM.report_head ++ join_lines lines
                ++ Fmt.LF ++ Fmt.LF)%string /\
      Forall2 (is_row w) (List.concat (map snd groups)) lines /\
      StronglySorted (fun a b => PrimFloat.ltb b a = true) (map fst groups) /\
      (forall t g, In (t, g) groups ->
         g <> [] /\
         g = filter (fun r => PrimFloat.eqb (total_of w r) t)
               (DonorDBM.donors self)) /\
      Permutation (List.concat (map snd groups)) (DonorDBM.donors self).
Proof.
  intros w self report Hlive Hnum Hrep.
  rewrite get_donor_report_rows, (group_by_total_live w self Hlive) in Hrep.
  cbn [bind] in Hrep.
  set (donor_dict := grouping w (DonorDBM.donors self) []) in *.
  destruct (report_rows w _) as [body|e] eqn:Hrows; cbn [bind] in Hrep;
    [|discriminate].
  injection Hrep as <-.
  destruct (report_rows_lines _ _ _ Hrows) as (lines & -> & Hlines).
  assert (Hg : groups_of (total_of w) (DonorDBM.donors self) donor_dict).
  { apply (grouping_groups_of w (DonorDBM.donors self) [] []);
      [now apply Forall_forall | apply groups_of_nil]. }
  destruct Hg as (I1 & I2 & _ & I4).
  exists (DonorDBM.descending donor_dict), lines.
  split; [reflexivity|].
  split; [exact Hlines|].
  split; [now apply descending_strict|].
  split.
  - intros t g Hin. apply I1.
    apply (Permutation_in _ (descending_perm donor_dict) Hin).
  - apply report_order_perm.
Qed.

(** A collection whose donors all have a donation gets its report. *)
Lemma get_donor_report_returns (w : World) (self : DonorDB) :
  DB_live w self ->
  (forall donor obj, In donor (DonorDBM.donors self) ->
                     load w donor = Ok obj -> donations obj <> []) ->
  exists report, DonorDBM.get_donor_report w self = Ok report.
Proof.
  intros Hlive Hne.
  rewrite get_donor_report_rows, (group_by_total_live w self Hlive).
  cbn [bind].
  pose proof (report_order_perm w self) as Hperm.
  set (order := List.concat _) in *.
  assert (Hrows : exists body, report_rows w order = Ok body).
  { assert (Hall : Forall (fun r => In r (DonorDBM.donors self)) order).
    { apply Forall_forall. intros r Hr.
      apply (Permutation_in _ Hperm Hr). }
    clearbody order. clear Hperm.
    induction order as [|r order IH]; simpl; [eexists; reflexivity|].
    inversion Hall as [|? ? Hr Hall']; subst.
    unfold DB_live in Hlive. rewrite Forall_forall in Hlive.
    destruct (Hlive r Hr) as [obj Hobj].
    destruct (report_row_cases w r obj Hobj) as [[He _]|[_ [line ->]]].
    - exfalso. now apply (Hne r obj Hr Hobj).
    - destruct (IH Hall') as [body ->]. eexists; reflexivity. }
  destruct Hrows as [body ->]. eexists; reflexivity.
Qed.

(* ================================================================== *)
(** ** The snapshot file *)

(** [output] of [save_to_file]: a member per item, in their order. *)
Lemma save_output (w : World) (items : list (string * ref)) :
  forall acc : snapshot,
    Forall (fun r => exists obj, load w r = Ok obj) (map snd items) ->
    NoDup (map fst acc ++ map fst items) ->
    exists out : snapshot,
      for_each
        (fun acc kv =>
           obj <- load w (snd kv) ;;
           Ok (Dict.set String.eqb acc (fst kv) (donations obj)))
        items acc = Ok (acc ++ out) /\
      Forall2
        (fun kv d =>
           fst d = fst kv /\
           exists obj, load w (snd kv) = Ok obj /\ snd d = donations obj)
        items out.
Proof.
  induction items as [|[k r] items IH]; intros acc Hlive Hnd; simpl.
  - exists []. rewrite app_nil_r. split; [reflexivity | constructor].
  - inversion Hlive as [|? ? [obj Hobj] Hlive']; subst.
    simpl in Hobj. rewrite Hobj. simpl.
    rewrite (set_fresh String.eqb String.eqb_eq).
    + assert (Hnd' : NoDup (map fst (acc ++ [(k, donations obj)]) ++ map fst items))
        by (rewrite map_app; simpl; rewrite <- app_assoc; exact Hnd).
      destruct (IH (acc ++ [(k, donations obj)]) Hlive' Hnd') as (out & -> & HF).
      exists ((k, donations obj) :: out). rewrite <- app_assoc.
      split; [reflexivity|].
      constructor; [|exact HF]. simpl. split; [reflexivity|].
      exists obj. now split.
    + simpl in Hnd. apply NoDup_remove_2 in Hnd.
      intros Hin. apply Hnd. apply in_or_app. now left.
Qed.

Lemma of_pairs_NoDup {V : Type} (pairs : list (string * V)) :
  NoDup (map fst pairs) -> Dict.of_pairs String.eqb pairs = pairs.
Proof.
  unfold Dict.of_pairs.
  enough (H : forall acc,
             NoDup (map fst acc ++ map fst pairs) ->
             fold_left (fun d kv => Dict.set String.eqb d (fst kv) (snd kv))
               pairs acc = acc ++ pairs) by apply (H []).
  induction pairs as [|[k v] pairs IH]; intros acc Hnd; simpl.
  - now rewrite app_nil_r.
  - rewrite (set_fresh String.eqb String.eqb_eq).
    + rewrite IH; [now rewrite <- app_assoc|].
      rewrite map_app. simpl. now rewrite <- app_assoc.
    + simpl in Hnd. apply NoDup_remove_2 in Hnd.
      intros Hin. apply Hnd. apply in_or_app. now left.
Qed.

(** The Donor objects [load_from_file] builds, one per member. *)
Lemma load_objects (doc : snapshot) :
  forall (objects : list ref) (w : World),
    exists (new : list ref) (w' : World),
      fold_left
        (fun st d =>
           let '(r, w1) := new_Donor (snd st) (fst d) (Some (snd d)) in
           (fst st ++ [r], w1))
        doc (objects, w) = (objects ++ new, w') /\
      Forall2 (fun d r => load w' r = Ok (mkDonor (fst d) (snd d))) doc new /\
      (forall r obj, load w r = Ok obj -> load w' r = Ok obj) /\
      files w' = files w.
Proof.
  induction doc as [|[k l] doc IH]; intros objects w; simpl.
  - exists [], w. rewrite app_nil_r.
    split; [reflexivity|]. split; [constructor|]. split; auto.
  - destruct (IH (objects ++ [List.length (heap w)])
                (snd (alloc w (DonorM.init k (Some l)))))
      as (new & w' & Hfold & HF & Hkeep & Hfiles).
    exists (List.length (heap w) :: new), w'.
    split; [|split; [|split]].
    + etransitivity; [|rewrite <- app_assoc in Hfold; exact Hfold].
      reflexivity.
    + constructor; [|exact HF]. simpl. apply Hkeep.
      apply (load_alloc_new w (DonorM.init k (Some l))).
    + intros r obj H. apply Hkeep. now apply load_alloc_old.
    + exact Hfiles.
Qed.

(** [DonorDB(donors)] on the objects just built. *)
Lemma init_objects (w : World) (doc : snapshot) (objects : list ref) :
  Forall2 (fun d r => load w r = Ok (mkDonor (fst d) (snd d))) doc objects ->
  forall acc : list (string * ref),
    NoDup (map fst acc ++ map fst doc) ->
    exists data : list (string * ref),
      for_each
        (fun acc d =>
           obj <- load w d ;;
           Ok (Dict.set String.eqb acc (DonorM.name obj) d))
        objects acc = Ok (acc ++ data) /\
      Forall2
        (fun d kv =>
           fst kv = fst d /\ load w (snd kv) = Ok (mkDonor (fst d) (snd d)))
        doc data.
Proof.
  induction 1 as [|[k l] r doc objects Hr HF IH]; intros acc Hnd.
  - exists []. rewrite app_nil_r. split; [reflexivity | constructor].
  - cbn [for_each]. simpl in Hr. rewrite Hr. cbn [bind].
    change (DonorM.name {| _donorname := k; donations := l |}) with k.
    rewrite (set_fresh String.eqb String.eqb_eq).
    + assert (Hnd' : NoDup (map fst (acc ++ [(k, r)]) ++ map fst doc))
        by (rewrite map_app; simpl; rewrite <- app_assoc; exact Hnd).
      destruct (IH (acc ++ [(k, r)]) Hnd') as (data & -> & HF').
      exists ((k, r) :: data). rewrite <- app_assoc.
      split; [reflexivity|].
      constructor; [|exact HF']. simpl. now split.
    + simpl in Hnd. apply NoDup_remove_2 in Hnd.
      intros Hin. apply Hnd. apply in_or_app. now left.
Qed.

(** Two item lists with the same names and, name by name, the same
    donations answer every lookup alike. *)
Lemma lookup_parallel (w w' : World) (items items' : list (string * ref)) :
  Forall2
    (fun kv kv' =>
       fst kv' = fst kv /\
       exists obj obj',
         load w (snd kv) = Ok obj /\ load w' (snd kv') = Ok obj' /\
         donations obj' = donations obj)
    items items' ->
  map fst items' = map fst items /\
  forall name,
    donations_of w' {| donor_data := items' |} name =
    donations_of w {| donor_data := items |} name.
Proof.
  unfold donations_of, DonorDBM.get_donor. simpl.
  induction 1 as [|[k r] [k' r'] items items' Hkv HF [IHk IH]]; simpl.
  - split; reflexivity.
  - destruct Hkv as (Hk & obj & obj' & Hl & Hl' & Hd).
    simpl in *. subst k'. split; [now rewrite IHk|].
    intros name. destruct (String.eqb k name).
    + now rewrite Hl, Hl', Hd.
    + apply IH.
Qed.

(** C1. After [save_to_file(path)] of a collection that is not empty,
    [load_from_file(path)] returns a collection with the same donor
    names, in the same order, and under each name the same donations in
    the same order. *)
Theorem save_then_load_round_trip :
  forall (w : World) (self : DonorDB) (filename : string) (w1 : World),
    donor_data self <> [] ->
    NoDup (Dict.keys (donor_data self)) ->
    DB_live w self ->
    DonorDBM.save_to_file w self filename = Ok w1 ->
    exists (loaded : DonorDB) (w2 : World),
      DonorDBM.load_from_file w1 filename = Ok (loaded, w2) /\
      Dict.keys (donor_data loaded) = Dict.keys (donor_data self) /\
      (forall name : string,
          donations_of w2 loaded name = donations_of w self name).
Proof.
  intros w [items] filename w1 _ Hnd Hlive Hsave. simpl in *.
  unfold DonorDBM.save_to_file in Hsave. simpl in Hsave.
  destruct (save_output w items [] Hlive Hnd) as (doc & Hout & Hdoc).
  rewrite Hout in Hsave. simpl in Hsave.
  destruct (existsb (String.eqb filename) (unwritable w)); [discriminate|].
  injection Hsave as <-.
  assert (Hkeys : map fst doc = map fst items).
  { clear -Hdoc. induction Hdoc as [|kv d items doc [Hk _] _ IH]; simpl;
      [reflexivity | now rewrite Hk, IH]. }
  set (w1 := {| heap := heap w;
                files := Dict.set String.eqb (files w) filename doc;
                unwritable := unwritable w |}).
  unfold DonorDBM.load_from_file.
  replace (Dict.get String.eqb (files w1) filename) with (Some doc)
    by (symmetry; apply (get_set_eq String.eqb String.eqb_eq)).
  unfold json_load. rewrite of_pairs_NoDup by (rewrite Hkeys; exact Hnd).
  destruct (load_objects doc [] w1) as (objects & w2 & Hfold & Hobjs & Hkeep & _).
  rewrite Hfold. cbn [app].
  assert (Hnd' : NoDup (map fst (@nil (string * ref)) ++ map fst doc))
    by (simpl; rewrite Hkeys; exact Hnd).
  destruct (init_objects w2 doc objects Hobjs [] Hnd') as (data & Hinit & Hdata).
  unfold DonorDBM.init. rewrite Hinit. simpl.
  exists {| donor_data := data |}, w2. split; [reflexivity|].
  apply (lookup_parallel w w2 items data).
  clear -Hdoc Hdata. revert data Hdata.
  induction Hdoc as [|kv d items doc (Hk & obj & Hobj & Hd) _ IH];
    intros data Hdata; inversion Hdata as [|? kv' ? data' [Hk' Hl'] Hdata']; subst;
    constructor.
  - split; [congruence|].
    exists obj, (mkDonor (fst d) (snd d)). repeat split; assumption.
  - now apply IH.
Qed.

(* ================================================================== *)
(** ** The collections the operations build *)

Lemma values_set_Forall {V : Type} (P : V -> Prop) (d : list (string * V))
    (k : string) (v : V) :
  Forall P (Dict.values d) -> P v ->
  Forall P (Dict.values (Dict.set String.eqb d k v)).
Proof.
  intros Hd Hv. induction d as [|[k' v'] d IH]; simpl.
  - now repeat constructor.
  - inversion Hd as [|? ? Hv' Hd']; subst.
    destruct (String.eqb k' k); simpl; constructor; auto.
Qed.

Lemma init_ok (w : World) (donors : option (list ref)) (self : DonorDB) :
  DonorDBM.init w donors = Ok self -> DB_ok w self.
Proof.
  unfold DonorDBM.init, DB_ok, DB_live, DonorDBM.donors.
  set (l := match donors with Some l => l | None => [] end).
  enough (H : forall acc data,
             NoDup (Dict.keys acc) ->
             Forall (fun r => exists obj, load w r = Ok obj) (Dict.values acc) ->
             for_each
               (fun acc d =>
                  obj <- load w d ;;
                  Ok (Dict.set String.eqb acc (DonorM.name obj) d))
               l acc = Ok data ->
             NoDup (Dict.keys data) /\
             Forall (fun r => exists obj, load w r = Ok obj) (Dict.values data)).
  { intros Hinit.
    destruct (for_each _ l []) as [data|e] eqn:E; simpl in Hinit; [|discriminate].
    injection Hinit as <-. simpl.
    apply (H [] data); try constructor. exact E. }
  clearbody l. induction l as [|r l IH]; intros acc data Hnd Hlive; simpl.
  - intros H; injection H as <-. now split.
  - destruct (load w r) as [obj|e] eqn:Hobj; simpl; [|discriminate].
    apply IH.
    + apply NoDup_keys_set; [apply String.eqb_eq | exact Hnd].
    + apply values_set_Forall; [exact Hlive | now exists obj].
Qed.

Lemma add_donor_ok (w : World) (self : DonorDB) (name : string) :
  DB_ok w self ->
  DB_ok (snd (DonorDBM.add_donor w self name))
        (snd (fst (DonorDBM.add_donor w self name))).
Proof.
  intros [Hnd Hlive]. unfold DonorDBM.add_donor, new_Donor. simpl.
  split; simpl.
  - apply NoDup_keys_set; [apply String.eqb_eq | exact Hnd].
  - unfold DB_live, DonorDBM.donors in *. simpl.
    apply values_set_Forall.
    + eapply Forall_impl; [|exact Hlive].
      intros r [obj Hobj]. exists obj.
      now apply (load_alloc_old w (DonorM.init name None)).
    + eexists. apply (load_alloc_new w (DonorM.init name None)).
Qed.

Lemma load_from_file_ok (w : World) (filename : string) (self : DonorDB)
    (w' : World) :
  DonorDBM.load_from_file w filename = Ok (self, w') -> DB_ok w' self.
Proof.
  unfold DonorDBM.load_from_file.
  destruct (Dict.get String.eqb (files w) filename) as [doc|]; [|discriminate].
  destruct (fold_left _ (json_load doc) ([], w)) as [objects w1].
  destruct (DonorDBM.init w1 (Some objects)) as [db|e] eqn:E; simpl;
    [|discriminate].
  intros H; injection H as <- <-. now apply init_ok in E.
Qed.

(** A collection can be saved under every name that can be written. *)
Lemma save_to_file_writable (w : World) (self : DonorDB) (filename : string) :
  DB_ok w self ->
  existsb (String.eqb filename) (unwritable w) = false ->
  exists w1, DonorDBM.save_to_file w self filename = Ok w1.
Proof.
  intros [Hnd Hlive] Hw. unfold DonorDBM.save_to_file.
  destruct (save_output w (donor_data self) [] Hlive Hnd) as (doc & -> & _).
  simpl. rewrite Hw. eexists; reflexivity.
Qed.

(** Right after [add_donor] the report cannot be made: the new donor has
    no donation yet. *)
Lemma get_donor_report_after_add_donor (w : World) (self : DonorDB)
    (name : string) :
  DB_ok w self ->
  DonorDBM.get_donor_report
    (snd (DonorDBM.add_donor w self name))
    (snd (fst (DonorDBM.add_donor w self name))) = Raise ZeroDivisionError.
Proof.
  intros Hok.
  pose proof (add_donor_new_object w self name) as Hnew.
  pose proof (add_donor_get w self name) as Hget.
  destruct (add_donor_ok w self name Hok) as [_ Hlive].
  set (donor := fst (fst (DonorDBM.add_donor w self name))) in *.
  set (self' := snd (fst (DonorDBM.add_donor w self name))) in *.
  set (w' := snd (DonorDBM.add_donor w self name)) in *.
  assert (Hin : In donor (DonorDBM.donors self')).
  { unfold DonorDBM.get_donor in Hget. unfold DonorDBM.donors.
    clearbody donor self' w'.
    induction (donor_data self') as [|[k r] d IH]; simpl in *; [discriminate|].
    destruct (String.eqb k name); [injection Hget as ->; now left|].
    right. now apply IH. }
  now apply (report_raises_on_empty_donor w' self' donor (mkDonor name [])).
Qed.

(* ================================================================== *)
(** ** A collection of three donors *)

Lemma example_db_live : DB_live example_world example_db.
Proof.
  repeat constructor; eexists; reflexivity.
Qed.

Lemma example_db_names : NoDup (Dict.keys (donor_data example_db)).
Proof.
  simpl. repeat constructor; simpl; intuition discriminate.
Qed.

Lemma example_db_numbers (donor : ref) :
  In donor (DonorDBM.donors example_db) ->
  PrimFloat.is_nan (total_of example_world donor) = false.
Proof.
  intros [<-|[<-|[<-|[]]]]; reflexivity.
Qed.

(** Alice and Carol, who both gave 300, come first and in the order of
    the collection; Bob, who gave 50, comes last. *)
Example example_report_rows :
  DonorDBM.get_donor_report example_world example_db =
  Ok (DonorDBM.report_head
      ++ REPORT_LINE "Alice" 300 2 150 ++ Fmt.LF
      ++ REPORT_LINE "Carol" 300 1 300 ++ Fmt.LF
      ++ REPORT_LINE "Bob" 50 1 50 ++ Fmt.LF
      ++ Fmt.LF ++ Fmt.LF)%string.
Proof. reflexivity. Qed.

Lemma save_then_load_round_trip_witness :
  exists (loaded : DonorDB) (w2 : World),
    DonorDBM.load_from_file example_saved "donors.json" = Ok (loaded, w2) /\
    Dict.keys (donor_data loaded) = Dict.keys (donor_data example_db) /\
    (forall name : string,
        donations_of w2 loaded name = donations_of example_world example_db name).
Proof.
  apply (save_then_load_round_trip example_world example_db "donors.json"
           example_saved).
  - discriminate.
  - exact example_db_names.
  - exact example_db_live.
  - reflexivity.
Defined.

Lemma get_donor_report_groups_descending_witness :
  exists (groups : list (float * list ref)) (lines : list string),
    example_report = (DonorDBM.report_head ++ join_lines lines
                      ++ Fmt.LF ++ Fmt.LF)%string /\
    Forall2 (is_row example_world) (List.concat (map snd groups)) lines /\
    StronglySorted (fun a b => PrimFloat.ltb b a = true) (map fst groups) /\
    (forall t g, In (t, g) groups ->
       g <> [] /\
       g = filter (fun r => PrimFloat.eqb (total_of example_world r) t)
             (DonorDBM.donors example_db)) /\
    Permutation (List.concat (map snd groups)) (DonorDBM.donors example_db).
Proof.
  apply (get_donor_report_groups_descending example_world example_db
           example_report).
  - exact example_db_live.
  - exact example_db_numbers.
  - reflexivity.
Defined.

Lemma get_donor_report_layout_witness :
  exists lines : list string,
    example_report =
    (Fmt.LF
     ++ "Donor Name                                        | Total Given | Num Gifts | Average Gift"
     ++ Fmt.LF ++ Py.repeat_string "-" 90 ++ Fmt.LF
     ++ join_lines lines ++ Fmt.LF ++ Fmt.LF)%string.
Proof.
  destruct (get_donor_report_layout example_world example_db example_report
              eq_refl) as [(lines & H & _) _].
  exists lines. exact H.
Defined.

Lemma get_donor_report_raises_on_empty_donor_witness :
  DonorM.avg_donations (mkDonor "Dave" []) = Raise ZeroDivisionError /\
  DonorDBM.get_donor_report example_world_new_donor example_db_new_donor =
  Raise ZeroDivisionError.
Proof.
  apply (get_donor_report_raises_on_empty_donor example_world_new_donor
           example_db_new_donor 3 (mkDonor "Dave" [])).
  - repeat constructor; eexists; reflexivity.
  - simpl. tauto.
  - reflexivity.
  - reflexivity.
Defined.

(* ================================================================== *)
(** * Further properties *)

(** ** Lookup *)

Lemma get_None_iff {V : Type} (d : list (string * V)) (k : string) :
  Dict.get String.eqb d k = None <-> ~ In k (Dict.keys d).
Proof.
  split; [|apply get_not_In, String.eqb_eq].
  induction d as [|[k' v] d IH]; simpl; intros H; [tauto|].
  destruct (String.eqb k' k) eqn:E; [discriminate|].
  apply String.eqb_neq in E. intros [Hk|Hk]; [contradiction|].
  now apply IH.
Qed.

Lemma get_Some_In {V : Type} (d : list (string * V)) (k : string) (v : V) :
  Dict.get String.eqb d k = Some v -> In (k, v) d.
Proof.
  induction d as [|[k' v'] d IH]; simpl; [discriminate|].
  destruct (String.eqb k' k) eqn:E.
  - apply String.eqb_eq in E. subst. intros H; injection H as ->. now left.
  - intros H. right. now apply IH.
Qed.

(** X1. [get_donor] returns [None] exactly for the names under which
    the collection stores no donor, and a donor it returns is the one
    stored under the name. *)
Theorem get_donor_found_or_none :
  forall (self : DonorDB) (name : string),
    (DonorDBM.get_donor self name = None <->
     ~ In name (Dict.keys (donor_data self))) /\
    (forall donor : ref,
        DonorDBM.get_donor self name = Some donor ->
        In (name, donor) (donor_data self)).
Proof.
  intros self name. split.
  - apply get_None_iff.
  - intros donor. apply get_Some_In.
Qed.

(** ** The getters of a Donor *)

(** X2. The getters agree on a donor without donations: the number of
    donations is 0 exactly when [avg_donations] raises and exactly when
    [last_donation] is [None]; [avg_donations] raises nothing but
    ZeroDivisionError. *)
Theorem donor_without_donations :
  forall self : Donor,
    (DonorM.num_donations self = 0 <->
     DonorM.avg_donations self = Raise ZeroDivisionError) /\
    (DonorM.num_donations self = 0 <->
     DonorM.last_donation self = Ok None) /\
    (forall e : exn,
        DonorM.avg_donations self = Raise e -> e = ZeroDivisionError).
Proof.
  intros [name l].
  unfold DonorM.num_donations, DonorM.avg_donations, DonorM.last_donation,
    Py.truediv, Py.last_item. simpl.
  destruct l as [|x l] using rev_ind.
  - simpl. repeat split; congruence.
  - rewrite length_app, rev_app_distr. simpl.
    rewrite Nat.add_comm. simpl.
    repeat split; try discriminate; congruence.
Qed.

Lemma sum_snoc (l : list float) (amount : float) :
  Py.sum (l ++ [amount]) = PrimFloat.add (Py.sum l) amount.
Proof.
  unfold Py.sum. now rewrite fold_left_app.
Qed.

(** X3. One [add_donation] on a donor adds the amount to its total (in
    float arithmetic), raises its number of donations by one, makes the
    amount its last donation and keeps its name; the other objects and
    the files stay as they were. *)
Theorem add_donation_effect :
  forall (w : World) (donor : ref) (obj : Donor) (amount : float),
    load w donor = Ok obj ->
    exists (w' : World) (obj' : Donor),
      add_donation w donor amount = Ok w' /\
      load w' donor = Ok obj' /\
      DonorM.name obj' = DonorM.name obj /\
      DonorM.num_donations obj' = S (DonorM.num_donations obj) /\
      DonorM.total_donations obj' =
        PrimFloat.add (DonorM.total_donations obj) amount /\
      DonorM.last_donation obj' = Ok (Some amount) /\
      (forall r : ref, r <> donor -> load w' r = load w r) /\
      files w' = files w.
Proof.
  intros w donor obj amount H.
  destruct (add_donation_load w donor obj amount H)
    as (w' & Hadd & Hload & Hframe & Hfiles).
  exists w', (DonorM.add_donation obj amount).
  split; [exact Hadd|]. split; [exact Hload|].
  split; [reflexivity|].
  split.
  { unfold DonorM.num_donations, DonorM.add_donation. simpl.
    rewrite length_app. simpl. lia. }
  split; [apply sum_snoc|].
  split.
  { unfold DonorM.last_donation, DonorM.add_donation. simpl.
    now rewrite last_item_app. }
  split; assumption.
Qed.

Lemma add_donation_effect_witness :
  exists (w' : World) (obj' : Donor),
    add_donation example_world 0 25%float = Ok w' /\
    load w' 0 = Ok obj' /\
    DonorM.name obj' = "Bob"%string /\
    DonorM.num_donations obj' = 2 /\
    DonorM.total_donations obj' = PrimFloat.add 50%float 25%float /\
    DonorM.last_donation obj' = Ok (Some 25%float) /\
    (forall r : ref, r <> 0 -> load w' r = load example_world r) /\
    files w' = files example_world.
Proof.
  apply (add_donation_effect example_world 0 (mkDonor "Bob" [50%float])
           25%float).
  reflexivity.
Defined.

(** ** send_letter *)

(** X4. [send_letter] returns a letter exactly for a donor with a
    donation; the letter carries the donor's name and the last donation
    with two decimals, whatever was given before; for a donor without
    donations it raises TypeError. *)
Theorem send_letter_of_last_donation :
  forall (w : World) (donor : ref) (obj : Donor),
    load w donor = Ok obj ->
    match rev (donations obj) with
    | [] => DonorDBM.send_letter w donor = Raise TypeError
    | last :: _ =>
        DonorDBM.send_letter w donor =
        Ok (Fmt.LF ++ "Dear " ++ DonorM.name obj ++ "," ++ Fmt.LF ++ Fmt.LF
            ++ "Thank you for your donation of $"
            ++ Fmt.format_f Fmt.SignDefault 0 2 last ++ "." ++ Fmt.LF)%string
    end.
Proof.
  intros w donor obj H.
  unfold DonorDBM.send_letter. rewrite H. cbn [bind].
  unfold DonorM.last_donation, Py.last_item.
  destruct (rev (donations obj)) as [|last rest]; [reflexivity|].
  cbn [bind]. apply THANK_YOU_LETTER_text.
Qed.

Lemma send_letter_of_last_donation_witness :
  DonorDBM.send_letter example_world 1 =
  Ok (Fmt.LF ++ "Dear Alice," ++ Fmt.LF ++ Fmt.LF
      ++ "Thank you for your donation of $200.00." ++ Fmt.LF)%string.
Proof.
  exact (send_letter_of_last_donation example_world 1
           (mkDonor "Alice" [100%float; 200%float]) eq_refl).
Defined.

(** ** add_donor *)

(** X5. [add_donor] never stores a name twice: a name that is present
    keeps its place among the names, a new name goes to the end. *)
Theorem add_donor_names :
  forall (w : World) (self : DonorDB) (name : string),
    let self' := snd (fst (DonorDBM.add_donor w self name)) in
    Dict.keys (donor_data self') =
    if existsb (String.eqb name) (Dict.keys (donor_data self))
    then Dict.keys (donor_data self)
    else Dict.keys (donor_data self) ++ [name].
Proof.
  intros w self name. cbv zeta. unfold DonorDBM.add_donor, new_Donor. simpl.
  destruct (existsb (String.eqb name) (Dict.keys (donor_data self))) eqn:E.
  - apply keys_set_present; [apply String.eqb_eq|].
    apply existsb_exists in E. destruct E as (k & Hk & Ek).
    apply String.eqb_eq in Ek. now subst.
  - apply keys_set_absent; [apply String.eqb_eq|].
    intros Hin.
    assert (existsb (String.eqb name) (Dict.keys (donor_data self)) = true);
      [|congruence].
    apply existsb_exists. exists name. split; [exact Hin|].
    apply String.eqb_refl.
Qed.

Lemma values_set_In {V : Type} (d : list (string * V)) (k : string) (v x : V) :
  In x (Dict.values (Dict.set String.eqb d k v)) ->
  x = v \/ In x (Dict.values d).
Proof.
  induction d as [|[k' v'] d IH]; simpl.
  - intros [H|[]]. now left.
  - destruct (String.eqb k' k); simpl.
    + intros [H|H]; [now left | right; now right].
    + intros [H|H]; [right; now left|].
      destruct (IH H) as [H'|H']; [now left | right; now right].
Qed.

(** X6. A donor that [add_donor] has just added blocks the report, and
    the first donation added through the returned Donor unblocks it:
    the donation is seen through [get_donor], and the report of the
    collection, whose other donors all have donations, is returned
    again. *)
Theorem add_donor_then_first_donation :
  forall (w : World) (self : DonorDB) (name : string) (amount : float),
    DB_ok w self ->
    (forall r obj, In r (DonorDBM.donors self) -> load w r = Ok obj ->
                   donations obj <> []) ->
    let donor := fst (fst (DonorDBM.add_donor w self name)) in
    let self' := snd (fst (DonorDBM.add_donor w self name)) in
    let w' := snd (DonorDBM.add_donor w self name) in
    DonorDBM.get_donor_report w' self' = Raise ZeroDivisionError /\
    exists w'' : World,
      add_donation w' donor amount = Ok w'' /\
      DonorDBM.get_donor self' name = Some donor /\
      load w'' donor = Ok (mkDonor name [amount]) /\
      exists report : string, DonorDBM.get_donor_report w'' self' = Ok report.
Proof.
  intros w self name amount Hok Hgave donor self' w'.
  split; [now apply get_donor_report_after_add_donor|].
  pose proof (add_donor_new_object w self name) as Hnew.
  destruct (add_donation_load w' donor _ amount Hnew)
    as (w'' & Hadd & Hload & Hframe & _).
  exists w''. split; [exact Hadd|].
  split; [apply add_donor_get|].
  split; [exact Hload|].
  assert (Hold : forall r, In r (DonorDBM.donors self') ->
                           r = donor \/ In r (DonorDBM.donors self)).
  { intros r Hr. apply (values_set_In (donor_data self) name donor r Hr). }
  assert (Hkeep : forall r obj, In r (DonorDBM.donors self) ->
                                load w r = Ok obj -> load w'' r = Ok obj).
  { intros r obj Hr Hobj. rewrite Hframe.
    - now apply (load_alloc_old w (DonorM.init name None)).
    - intros ->. unfold donor, DonorDBM.add_donor, new_Donor in Hobj.
      simpl in Hobj. rewrite load_fresh in Hobj. discriminate. }
  destruct Hok as [_ Hlive]. unfold DB_live in Hlive.
  rewrite Forall_forall in Hlive.
  apply get_donor_report_returns.
  - apply Forall_forall. intros r Hr.
    destruct (Hold r Hr) as [->|Hin]; [eexists; exact Hload|].
    destruct (Hlive r Hin) as [obj Hobj]. exists obj. now apply Hkeep.
  - intros r obj Hr Hobj.
    destruct (Hold r Hr) as [->|Hin].
    + rewrite Hload in Hobj. injection Hobj as <-. discriminate.
    + destruct (Hlive r Hin) as [obj0 Hobj0].
      rewrite (Hkeep r obj0 Hin Hobj0) in Hobj. injection Hobj as <-.
      now apply (Hgave r obj0).
Qed.

Lemma example_db_ok : DB_ok example_world example_db.
Proof.
  split; [exact example_db_names | exact example_db_live].
Qed.

Lemma example_db_gave (r : ref) (obj : Donor) :
  In r (DonorDBM.donors example_db) -> load example_world r = Ok obj ->
  donations obj <> [].
Proof.
  intros [<-|[<-|[<-|[]]]] H; injection H as <-; discriminate.
Qed.

Lemma add_donor_then_first_donation_witness :
  DonorDBM.get_donor_report
    (snd (DonorDBM.add_donor example_world example_db "Dave"))
    (snd (fst (DonorDBM.add_donor example_world example_db "Dave")))
  = Raise ZeroDivisionError /\
  exists w'' : World,
    add_donation (snd (DonorDBM.add_donor example_world example_db "Dave"))
      (fst (fst (DonorDBM.add_donor example_world example_db "Dave")))
      10%float = Ok w'' /\
    DonorDBM.get_donor
      (snd (fst (DonorDBM.add_donor example_world example_db "Dave"))) "Dave"
    = Some (fst (fst (DonorDBM.add_donor example_world example_db "Dave"))) /\
    load w'' (fst (fst (DonorDBM.add_donor example_world example_db "Dave")))
    = Ok (mkDonor "Dave" [10%float]) /\
    exists report : string,
      DonorDBM.get_donor_report w''
        (snd (fst (DonorDBM.add_donor example_world example_db "Dave")))
      = Ok report.
Proof.
  exact (add_donor_then_first_donation example_world example_db "Dave"
           10%float example_db_ok example_db_gave).
Defined.

(** ** The donor report *)

Lemma report_rows_outcome (w : World) (l : list ref) :
  Forall (fun r => exists obj, load w r = Ok obj) l ->
  (exists body, report_rows w l = Ok body) \/
  report_rows w l = Raise ZeroDivisionError.
Proof.
  induction 1 as [|r l [obj Hobj] Hl IH]; simpl.
  - left. eexists; reflexivity.
  - destruct (report_row_cases w r obj Hobj) as [[_ ->]|[_ [line ->]]];
      [now right|].
    cbn [bind]. destruct IH as [[body ->]| ->]; [left | now right].
    eexists; reflexivity.
Qed.

(** X8. [get_donor_report] returns a report exactly when every donor of
    the collection has a donation; otherwise it raises, and what it
    raises is ZeroDivisionError. *)
Theorem get_donor_report_returns_or_divides_by_zero :
  forall (w : World) (self : DonorDB),
    DB_live w self ->
    ((exists report, DonorDBM.get_donor_report w self = Ok report) <->
     (forall r obj, In r (DonorDBM.donors self) -> load w r = Ok obj ->
                    donations obj <> [])) /\
    (forall e : exn,
        DonorDBM.get_donor_report w self = Raise e -> e = ZeroDivisionError).
Proof.
  intros w self Hlive. split; [split|].
  - intros [report Hrep] r obj Hr Hobj Hempty.
    rewrite (report_raises_on_empty_donor w self r obj Hlive Hr Hobj Hempty)
      in Hrep.
    discriminate.
  - now apply get_donor_report_returns.
  - intros e He.
    rewrite get_donor_report_rows, (group_by_total_live w self Hlive) in He.
    cbn [bind] in He.
    destruct (report_rows_outcome w
                (List.concat (map snd (DonorDBM.descending
                   (grouping w (DonorDBM.donors self) [])))))
      as [[body Hb]|Hb].
    + apply (Permutation_Forall (Permutation_sym (report_order_perm w self))).
      exact Hlive.
    + rewrite Hb in He. discriminate.
    + rewrite Hb in He. cbn [bind] in He. congruence.
Qed.

Lemma get_donor_report_returns_or_divides_by_zero_witness :
  ((exists report,
       DonorDBM.get_donor_report example_world example_db = Ok report) <->
   (forall r obj, In r (DonorDBM.donors example_db) ->
                  load example_world r = Ok obj -> donations obj <> [])) /\
  (forall e : exn,
      DonorDBM.get_donor_report example_world example_db = Raise e ->
      e = ZeroDivisionError).
Proof.
  exact (get_donor_report_returns_or_divides_by_zero example_world example_db
           example_db_live).
Defined.

(** ** The constructor of a collection *)

Lemma find_app {A : Type} (p : A -> bool) (l1 l2 : list A) :
  find p (l1 ++ l2) =
  match find p l1 with
  | Some x => Some x
  | None => find p l2
  end.
Proof.
  induction l1 as [|x l1 IH]; simpl; [reflexivity|].
  now destruct (p x).
Qed.

Lemma keys_set_existsb {V : Type} (d : list (string * V)) (k : string) (v : V) :
  Dict.keys (Dict.set String.eqb d k v) =
  if existsb (String.eqb k) (Dict.keys d) then Dict.keys d
  else Dict.keys d ++ [k].
Proof.
  destruct (existsb (String.eqb k) (Dict.keys d)) eqn:E.
  - apply keys_set_present; [apply String.eqb_eq|].
    apply existsb_exists in E. destruct E as (k' & Hk & Ek).
    apply String.eqb_eq in Ek. now subst.
  - apply keys_set_absent; [apply String.eqb_eq|].
    intros Hin.
    assert (existsb (String.eqb k) (Dict.keys d) = true); [|congruence].
    apply existsb_exists. exists k. split; [exact Hin | apply String.eqb_refl].
Qed.

Lemma set_Forall {V : Type} (P : string * V -> Prop) (d : list (string * V))
    (k : string) (v : V) :
  Forall P d -> P (k, v) -> Forall P (Dict.set String.eqb d k v).
Proof.
  intros Hd Hkv. induction d as [|[k' v'] d IH]; simpl.
  - now repeat constructor.
  - inversion Hd as [|? ? Hx Hd']; subst.
    destruct (String.eqb k' k) eqn:E.
    + apply String.eqb_eq in E. subst. now constructor.
    + constructor; [exact Hx | now apply IH].
Qed.

Lemma init_fold (w : World) (l : list ref) :
  forall (acc data : list (string * ref)),
    for_each
      (fun acc d =>
         obj <- load w d ;;
         Ok (Dict.set String.eqb acc (DonorM.name obj) d))
      l acc = Ok data ->
    (forall name,
        Dict.get String.eqb data name =
        match last_named w l name with
        | Some r => Some r
        | None => Dict.get String.eqb acc name
        end) /\
    Dict.keys data =
      fold_left
        (fun acc k => if existsb (String.eqb k) acc then acc else acc ++ [k])
        (map (name_of w) l) (Dict.keys acc) /\
    (Forall
       (fun kv => exists obj, load w (snd kv) = Ok obj /\ DonorM.name obj = fst kv)
       acc ->
     Forall
       (fun kv => exists obj, load w (snd kv) = Ok obj /\ DonorM.name obj = fst kv)
       data).
Proof.
  induction l as [|r l IH]; intros acc data H.
  - simpl in H. injection H as <-. repeat split; auto.
  - cbn [for_each] in H.
    destruct (load w r) as [obj|e] eqn:Hobj; cbn [bind] in H; [|discriminate].
    destruct (IH _ _ H) as (Hget & Hkeys & Hkeyed).
    assert (Hname : name_of w r = DonorM.name obj)
      by (unfold name_of; now rewrite Hobj).
    split; [|split].
    + intros name. rewrite Hget. unfold last_named. simpl.
      rewrite find_app. simpl.
      destruct (find _ (rev l)); [reflexivity|].
      rewrite Hname.
      destruct (String.eqb (DonorM.name obj) name) eqn:E.
      * apply String.eqb_eq in E. subst name.
        apply get_set_eq, String.eqb_eq.
      * apply get_set_neq; [apply String.eqb_eq|].
        apply String.eqb_neq in E. congruence.
    + rewrite Hkeys. simpl. rewrite Hname. now rewrite keys_set_existsb.
    + intros Hacc. apply Hkeyed. apply set_Forall; [exact Hacc|].
      exists obj. now split.
Qed.

(** X9. [DonorDB(donors)] stores every donor under its name; of donors
    that share a name the last one is kept, at the place of the first;
    the names of the collection are those of the donors, each once, in
    the order in which they first appear. *)
Theorem init_last_donor_of_a_name_wins :
  forall (w : World) (donors : option (list ref)) (self : DonorDB),
    DonorDBM.init w donors = Ok self ->
    let given := match donors with Some l => l | None => [] end in
    (forall name : string,
        DonorDBM.get_donor self name = last_named w given name) /\
    Dict.keys (donor_data self) = first_occurrences (map (name_of w) given) /\
    DB_keyed w self.
Proof.
  intros w donors self H given. unfold DonorDBM.init in H. fold given in H.
  destruct (for_each _ given []) as [data|e] eqn:E; cbn [bind] in H;
    [|discriminate].
  injection H as <-.
  destruct (init_fold w given [] data E) as (Hget & Hkeys & Hkeyed).
  split; [|split].
  - intros name. unfold DonorDBM.get_donor. simpl. rewrite Hget.
    now destruct (last_named w given name).
  - exact Hkeys.
  - apply Hkeyed. constructor.
Qed.

Lemma init_last_donor_of_a_name_wins_witness :
  (forall name : string,
      DonorDBM.get_donor
        {| donor_data := [("Ann"%string, 2); ("Ben"%string, 1)] |} name =
      last_named example_world_same_name [0; 1; 2] name) /\
  Dict.keys [("Ann"%string, 2); ("Ben"%string, 1)] =
    first_occurrences (map (name_of example_world_same_name) [0; 1; 2]) /\
  DB_keyed example_world_same_name
    {| donor_data := [("Ann"%string, 2); ("Ben"%string, 1)] |}.
Proof.
  exact (init_last_donor_of_a_name_wins example_world_same_name
           (Some [0; 1; 2])
           {| donor_data := [("Ann"%string, 2); ("Ben"%string, 1)] |}
           eq_refl).
Defined.

(** ** The snapshot file, read and written *)

Lemma NoDup_of_pairs {V : Type} (pairs : list (string * V)) :
  NoDup (Dict.keys (Dict.of_pairs String.eqb pairs)).
Proof.
  unfold Dict.of_pairs.
  enough (H : forall acc,
             NoDup (Dict.keys acc) ->
             NoDup (Dict.keys
                      (fold_left
                         (fun d kv => Dict.set String.eqb d (fst kv) (snd kv))
                         pairs acc)))
    by (apply H; constructor).
  induction pairs as [|[k v] pairs IH]; intros acc Hacc; simpl; [exact Hacc|].
  apply IH. apply NoDup_keys_set; [apply String.eqb_eq | exact Hacc].
Qed.

Lemma load_objects_unwritable (doc : snapshot) :
  forall (objects : list ref) (w : World),
    unwritable
      (snd (fold_left
              (fun st d =>
                 let '(r, w1) := new_Donor (snd st) (fst d) (Some (snd d)) in
                 (fst st ++ [r], w1))
              doc (objects, w))) = unwritable w.
Proof.
  induction doc as [|[k l] doc IH]; intros objects w; [reflexivity|].
  cbn [fold_left].
  etransitivity;
    [apply (IH (objects ++ [List.length (heap w)])
               (snd (alloc w (DonorM.init k (Some l)))))|].
  reflexivity.
Qed.

(** What [load_from_file] builds from the document of a file. *)
Lemma load_from_file_items (w : World) (filename : string) (doc : snapshot) :
  Dict.get String.eqb (files w) filename = Some doc ->
  exists (self : DonorDB) (w' : World),
    DonorDBM.load_from_file w filename = Ok (self, w') /\
    Forall2
      (fun d kv =>
         fst kv = fst d /\ load w' (snd kv) = Ok (mkDonor (fst d) (snd d)))
      (json_load doc) (donor_data self) /\
    (forall r obj, load w r = Ok obj -> load w' r = Ok obj) /\
    files w' = files w /\
    unwritable w' = unwritable w.
Proof.
  intros Hfile. unfold DonorDBM.load_from_file. rewrite Hfile.
  pose proof (load_objects_unwritable (json_load doc) [] w) as Hunw.
  destruct (load_objects (json_load doc) [] w)
    as (objects & w' & Hfold & Hobjs & Hkeep & Hfiles).
  rewrite Hfold in Hunw |- *. cbn [app snd] in Hunw |- *.
  assert (Hnd : NoDup (map fst (@nil (string * ref)) ++ map fst (json_load doc)))
    by (simpl; apply (NoDup_of_pairs doc)).
  destruct (init_objects w' (json_load doc) objects Hobjs [] Hnd)
    as (data & Hinit & Hdata).
  unfold DonorDBM.init. rewrite Hinit. cbn [bind app].
  exists {| donor_data := data |}, w'.
  repeat split; assumption.
Qed.

Lemma items_lookup (w : World) (doc : snapshot) (items : list (string * ref)) :
  Forall2
    (fun d kv =>
       fst kv = fst d /\ load w (snd kv) = Ok (mkDonor (fst d) (snd d)))
    doc items ->
  Dict.keys items = Dict.keys doc /\
  forall name : string,
    match Dict.get String.eqb items name with
    | Some donor =>
        exists l, Dict.get String.eqb doc name = Some l /\
                  load w donor = Ok (mkDonor name l)
    | None => Dict.get String.eqb doc name = None
    end.
Proof.
  induction 1 as [|[k l] [k' r] doc items [Hk Hl] HF [IHk IH]]; simpl.
  - split; [reflexivity | intros; reflexivity].
  - simpl in Hk, Hl. subst k'. split; [now rewrite IHk|].
    intros name. destruct (String.eqb k name) eqn:E.
    + apply String.eqb_eq in E. subst. exists l. now split.
    + apply IH.
Qed.

Lemma load_objects_exact (doc : snapshot) :
  forall (objects : list ref) (w : World),
    fold_left
      (fun st d =>
         let '(r, w1) := new_Donor (snd st) (fst d) (Some (snd d)) in
         (fst st ++ [r], w1))
      doc (objects, w) =
    (objects ++ seq (List.length (heap w)) (List.length doc),
     {| heap := heap w ++ map (fun d => DonorM.init (fst d) (Some (snd d))) doc;
        files := files w;
        unwritable := unwritable w |}).
Proof.
  induction doc as [|[k l] doc IH]; intros objects w.
  - simpl. rewrite !app_nil_r. now destruct w.
  - cbn [fold_left].
    etransitivity;
      [apply (IH (objects ++ [List.length (heap w)])
                 (snd (alloc w (DonorM.init k (Some l)))))|].
    simpl. rewrite length_app, <- !app_assoc. simpl.
    now rewrite Nat.add_comm.
Qed.

Lemma init_objects_combine (w : World) (doc : snapshot) (objects : list ref) :
  Forall2 (fun d r => load w r = Ok (mkDonor (fst d) (snd d))) doc objects ->
  forall acc : list (string * ref),
    NoDup (map fst acc ++ map fst doc) ->
    for_each
      (fun acc d =>
         obj <- load w d ;;
         Ok (Dict.set String.eqb acc (DonorM.name obj) d))
      objects acc = Ok (acc ++ combine (map fst doc) objects).
Proof.
  induction 1 as [|[k l] r doc objects Hr HF IH]; intros acc Hnd.
  - simpl. now rewrite app_nil_r.
  - cbn [for_each]. simpl in Hr. rewrite Hr. cbn [bind].
    change (DonorM.name {| _donorname := k; donations := l |}) with k.
    rewrite (set_fresh String.eqb String.eqb_eq).
    + assert (Hnd' : NoDup (map fst (acc ++ [(k, r)]) ++ map fst doc))
        by (rewrite map_app; simpl; rewrite <- app_assoc; exact Hnd).
      rewrite (IH (acc ++ [(k, r)]) Hnd'). now rewrite <- app_assoc.
    + simpl in Hnd. apply NoDup_remove_2 in Hnd.
      intros Hin. apply Hnd. apply in_or_app. now left.
Qed.

(** [load_from_file] in full: the collection and the heap it returns. *)
Lemma load_from_file_exact (w : World) (filename : string) (doc : snapshot) :
  Dict.get String.eqb (files w) filename = Some doc ->
  DonorDBM.load_from_file w filename =
  Ok ({| donor_data :=
           combine (Dict.keys (json_load doc))
             (seq (List.length (heap w)) (List.length (json_load doc))) |},
      {| heap := heap w
                 ++ map (fun d => DonorM.init (fst d) (Some (snd d)))
                      (json_load doc);
         files := files w;
         unwritable := unwritable w |}).
Proof.
  intros Hfile. unfold DonorDBM.load_from_file. rewrite Hfile.
  destruct (load_objects (json_load doc) [] w)
    as (objects & w' & Hfold & Hobjs & _ & _).
  pose proof (load_objects_exact (json_load doc) [] w) as Hexact.
  rewrite Hfold in Hexact. cbn [app] in Hexact.
  injection Hexact as -> ->.
  rewrite load_objects_exact. cbn [app].
  assert (Hnd : NoDup (map fst (@nil (string * ref)) ++ map fst (json_load doc)))
    by (simpl; apply (NoDup_of_pairs doc)).
  unfold DonorDBM.init.
  rewrite (init_objects_combine _ _ _ Hobjs [] Hnd). reflexivity.
Qed.

(** X10. [load_from_file] of a file that holds a snapshot document (a
    JSON object of arrays of numbers) returns a collection with the
    names of the loaded document, in their order; every name holds a
    new Donor with that name and the donations of the document; the
    objects and the files there were are left as they are. A file with
    other content is not a [snapshot] and is not spoken of here: on
    text that is no JSON [json.load] raises JSONDecodeError. *)
Theorem load_from_file_of_a_document :
  forall (w : World) (filename : string) (doc : snapshot),
    Dict.get String.eqb (files w) filename = Some doc ->
    exists (self : DonorDB) (w' : World),
      DonorDBM.load_from_file w filename = Ok (self, w') /\
      Dict.keys (donor_data self) = Dict.keys (json_load doc) /\
      (forall name : string,
          match DonorDBM.get_donor self name with
          | Some donor =>
              exists l,
                Dict.get String.eqb (json_load doc) name = Some l /\
                load w' donor = Ok (mkDonor name l) /\
                load w donor = Raise ReferenceError
          | None => Dict.get String.eqb (json_load doc) name = None
          end) /\
      (forall r obj, load w r = Ok obj -> load w' r = Ok obj) /\
      files w' = files w.
Proof.
  intros w filename doc Hfile.
  destruct (load_from_file_items w filename doc Hfile)
    as (self & w' & Hload & Hitems & Hkeep & Hfiles & _).
  exists self, w'. split; [exact Hload|].
  destruct (items_lookup w' _ _ Hitems) as [Hkeys Hlook].
  split; [exact Hkeys|]. split; [|split; assumption].
  intros name. specialize (Hlook name). unfold DonorDBM.get_donor.
  destruct (Dict.get String.eqb (donor_data self) name) as [donor|] eqn:Hget;
    [|exact Hlook].
  destruct Hlook as (l & Hl & Hobj). exists l.
  split; [exact Hl|]. split; [exact Hobj|].
  rewrite (load_from_file_exact w filename doc Hfile) in Hload.
  injection Hload as <- _. simpl in Hget.
  apply get_Some_In, in_combine_r, in_seq in Hget.
  unfold load.
  destruct (nth_error (heap w) donor) eqn:E; [|reflexivity].
  assert (donor < List.length (heap w)); [|lia].
  apply nth_error_Some. congruence.
Qed.

(** The file of three donors, loaded beside the three objects it was
    written from. *)
Lemma load_from_file_of_a_document_witness :
  exists (self : DonorDB) (w' : World),
    DonorDBM.load_from_file example_saved "donors.json"%string
      = Ok (self, w') /\
    Dict.keys (donor_data self) = ["Bob"%string; "Alice"%string; "Carol"%string] /\
    (forall name : string,
        match DonorDBM.get_donor self name with
        | Some donor =>
            exists l,
              Dict.get String.eqb
                (json_load [("Bob"%string, [50%float]);
                            ("Alice"%string, [100%float; 200%float]);
                            ("Carol"%string, [300%float])]) name = Some l /\
              load w' donor = Ok (mkDonor name l) /\
              load example_saved donor = Raise ReferenceError
        | None =>
            Dict.get String.eqb
              (json_load [("Bob"%string, [50%float]);
                          ("Alice"%string, [100%float; 200%float]);
                          ("Carol"%string, [300%float])]) name = None
        end) /\
    (forall r obj, load example_saved r = Ok obj -> load w' r = Ok obj) /\
    files w' = files example_saved.
Proof.
  exact (load_from_file_of_a_document example_saved "donors.json"%string
           _ eq_refl).
Defined.

Lemma save_document (w : World) (self : DonorDB) :
  DB_ok w self ->
  for_each
    (fun acc kv =>
       obj <- load w (snd kv) ;;
       Ok (Dict.set String.eqb acc (fst kv) (donations obj)))
    (donor_data self) [] = Ok (document_of w self).
Proof.
  intros [Hnd Hlive]. destruct self as [items].
  unfold DB_live, DonorDBM.donors, document_of in *. simpl in *.
  destruct (save_output w items [] Hlive Hnd) as (out & -> & HF).
  cbn [app]. apply f_equal. clear Hnd Hlive.
  induction HF as [|kv d items out (Hk & obj & Hobj & Hd) _ IH]; simpl;
    [reflexivity|].
  rewrite IH. f_equal. unfold donations_at. rewrite Hobj.
  destruct d as [k l]. simpl in *. congruence.
Qed.

(** X11. [save_to_file] writes, under the given file name, a member for
    every name of the collection, in their order, with the donations of
    the donor stored under that name; it changes no Donor and no other
    file. *)
Theorem save_to_file_spec :
  forall (w : World) (self : DonorDB) (filename : string) (w1 : World),
    DB_ok w self ->
    DonorDBM.save_to_file w self filename = Ok w1 ->
    heap w1 = heap w /\
    Dict.get String.eqb (files w1) filename = Some (document_of w self) /\
    (forall other : string,
        other <> filename ->
        Dict.get String.eqb (files w1) other =
        Dict.get String.eqb (files w) other).
Proof.
  intros w self filename w1 Hok Hsave.
  unfold DonorDBM.save_to_file in Hsave.
  rewrite (save_document w self Hok) in Hsave. cbn [bind] in Hsave.
  destruct (existsb (String.eqb filename) (unwritable w)); [discriminate|].
  injection Hsave as <-. simpl.
  split; [reflexivity|].
  split; [apply get_set_eq, String.eqb_eq|].
  intros other Hne. apply get_set_neq; [apply String.eqb_eq | exact Hne].
Qed.

Lemma save_to_file_spec_witness :
  heap example_saved = heap example_world /\
  Dict.get String.eqb (files example_saved) "donors.json"%string =
    Some (document_of example_world example_db) /\
  (forall other : string,
      other <> "donors.json"%string ->
      Dict.get String.eqb (files example_saved) other =
      Dict.get String.eqb (files example_world) other).
Proof.
  exact (save_to_file_spec example_world example_db "donors.json"%string
           example_saved example_db_ok eq_refl).
Defined.

Lemma document_of_items (w : World) (doc : snapshot)
    (items : list (string * ref)) :
  Forall2
    (fun d kv =>
       fst kv = fst d /\ load w (snd kv) = Ok (mkDonor (fst d) (snd d)))
    doc items ->
  document_of w {| donor_data := items |} = doc.
Proof.
  unfold document_of. simpl.
  induction 1 as [|[k l] [k' r] doc items [Hk Hl] _ IH]; simpl;
    [reflexivity|].
  simpl in Hk, Hl. rewrite IH. unfold donations_at. rewrite Hl. simpl.
  now subst.
Qed.

(** X12. A collection loaded from a file and saved again gives the
    loaded document: [load_from_file] then [save_to_file] writes what
    [json.load] read, which is the document of the file itself exactly
    when no name occurs twice in it. *)
Theorem load_then_save_round_trip :
  forall (w : World) (filename target : string) (doc : snapshot),
    Dict.get String.eqb (files w) filename = Some doc ->
    existsb (String.eqb target) (unwritable w) = false ->
    exists (self : DonorDB) (w' w'' : World),
      DonorDBM.load_from_file w filename = Ok (self, w') /\
      DonorDBM.save_to_file w' self target = Ok w'' /\
      Dict.get String.eqb (files w'') target = Some (json_load doc) /\
      (json_load doc = doc <-> NoDup (map fst doc)).
Proof.
  intros w filename target doc Hfile Hw.
  destruct (load_from_file_items w filename doc Hfile)
    as (self & w' & Hload & Hitems & _ & _ & Hunw).
  pose proof (load_from_file_ok w filename self w' Hload) as Hok.
  exists self, w'. eexists. split; [exact Hload|].
  unfold DonorDBM.save_to_file.
  rewrite (save_document w' self Hok). cbn [bind].
  rewrite Hunw, Hw. split; [reflexivity|]. simpl.
  split.
  - rewrite (get_set_eq String.eqb String.eqb_eq). f_equal.
    destruct self as [items]. now apply document_of_items.
  - split.
    + intros <-. apply (NoDup_of_pairs doc).
    + apply of_pairs_NoDup.
Qed.

Lemma load_then_save_round_trip_witness :
  exists (self : DonorDB) (w' w'' : World),
    DonorDBM.load_from_file example_world_same_name "twice.json"%string
      = Ok (self, w') /\
    DonorDBM.save_to_file w' self "again.json"%string = Ok w'' /\
    Dict.get String.eqb (files w'') "again.json"%string =
      Some (json_load [("Ann"%string, [5%float]);
                       ("Ben"%string, [7%float]);
                       ("Ann"%string, [9%float; 1%float])]) /\
    (json_load [("Ann"%string, [5%float]);
                ("Ben"%string, [7%float]);
                ("Ann"%string, [9%float; 1%float])]
     = [("Ann"%string, [5%float]);
        ("Ben"%string, [7%float]);
        ("Ann"%string, [9%float; 1%float])]
     <-> NoDup (map fst [("Ann"%string, [5%float]);
                         ("Ben"%string, [7%float]);
                         ("Ann"%string, [9%float; 1%float])])).
Proof.
  exact (load_then_save_round_trip example_world_same_name
           "twice.json"%string "again.json"%string _ eq_refl eq_refl).
Defined.

(** ** What the operations keep *)

(** X13. [add_donor] keeps a collection well formed: its names stay
    pairwise different, its references name objects, and every donor is
    stored under its own name. *)
Theorem add_donor_keeps_collection :
  forall (w : World) (self : DonorDB) (name : string),
    DB_ok w self ->
    DB_keyed w self ->
    let self' := snd (fst (DonorDBM.add_donor w self name)) in
    let w' := snd (DonorDBM.add_donor w self name) in
    DB_ok w' self' /\ DB_keyed w' self'.
Proof.
  intros w self name Hok Hkeyed self' w'.
  split; [now apply add_donor_ok|].
  unfold DB_keyed, self', w', DonorDBM.add_donor, new_Donor in *. simpl.
  apply set_Forall.
  - eapply Forall_impl; [|exact Hkeyed].
    intros kv (obj & Hobj & Hname). exists obj. split; [|exact Hname].
    now apply (load_alloc_old w (DonorM.init name None)).
  - exists (DonorM.init name None). split; [|reflexivity].
    apply (load_alloc_new w (DonorM.init name None)).
Qed.

Lemma example_db_keyed : DB_keyed example_world example_db.
Proof.
  repeat constructor; eexists; split; reflexivity.
Qed.

Lemma add_donor_keeps_collection_witness :
  DB_ok (snd (DonorDBM.add_donor example_world example_db "Alice"%string))
        (snd (fst (DonorDBM.add_donor example_world example_db "Alice"%string))) /\
  DB_keyed (snd (DonorDBM.add_donor example_world example_db "Alice"%string))
           (snd (fst (DonorDBM.add_donor example_world example_db "Alice"%string))).
Proof.
  exact (add_donor_keeps_collection example_world example_db "Alice"%string
           example_db_ok example_db_keyed).
Defined.

(** X14. Giving a donor a new name changes the name of that object
    only: its donations, the other objects and the files stay, and the
    collection keeps the donor under the name it was stored with, so
    the document of the collection is the same as before. *)
Theorem set_name_does_not_rekey :
  forall (w : World) (donor : ref) (obj : Donor) (donor_name : string),
    load w donor = Ok obj ->
    exists w' : World,
      set_name w donor donor_name = Ok w' /\
      load w' donor = Ok (mkDonor donor_name (donations obj)) /\
      (forall r : ref, r <> donor -> load w' r = load w r) /\
      files w' = files w /\
      (forall self : DonorDB, document_of w' self = document_of w self) /\
      (forall self : DonorDB, DB_live w self -> DB_live w' self).
Proof.
  intros w donor obj donor_name Hobj.
  unfold set_name, load, store in *.
  destruct (nth_error (heap w) donor) as [d|] eqn:E; [|discriminate].
  injection Hobj as ->. cbn [bind].
  eexists. split; [reflexivity|]. simpl.
  assert (Hlt : donor < List.length (heap w))
    by (apply nth_error_Some; congruence).
  assert (Hsame : forall r,
             match nth_error
                     (replace_nth (heap w) donor (DonorM.set_name obj donor_name)) r
             with Some x => donations x | None => [] end =
             match nth_error (heap w) r with
             | Some x => donations x | None => [] end).
  { intros r. destruct (Nat.eq_dec donor r) as [<-|Hne].
    - rewrite nth_error_replace_nth_eq by exact Hlt. now rewrite E.
    - now rewrite nth_error_replace_nth_neq. }
  split; [|split; [|split; [reflexivity|split]]].
  - now rewrite nth_error_replace_nth_eq.
  - intros r Hr. rewrite nth_error_replace_nth_neq by congruence. reflexivity.
  - intros self. unfold document_of. apply map_ext. intros [k r].
    unfold donations_at, load. simpl. f_equal.
    specialize (Hsame r).
    destruct (nth_error (replace_nth _ _ _) r), (nth_error (heap w) r);
      exact Hsame.
  - intros self Hlive. unfold DB_live in *.
    eapply Forall_impl; [|exact Hlive].
    intros r [x Hx]. unfold load in *. simpl.
    destruct (Nat.eq_dec donor r) as [<-|Hne].
    + rewrite nth_error_replace_nth_eq by exact Hlt. eexists; reflexivity.
    + rewrite nth_error_replace_nth_neq by exact Hne. now exists x.
Qed.

Lemma set_name_does_not_rekey_witness :
  exists w' : World,
    set_name example_world 0 "Robert"%string = Ok w' /\
    load w' 0 = Ok (mkDonor "Robert" [50%float]) /\
    (forall r : ref, r <> 0 -> load w' r = load example_world r) /\
    files w' = files example_world /\
    (forall self : DonorDB,
        document_of w' self = document_of example_world self) /\
    (forall self : DonorDB, DB_live example_world self -> DB_live w' self).
Proof.
  exact (set_name_does_not_rekey example_world 0 (mkDonor "Bob" [50%float])
           "Robert"%string eq_refl).
Defined.

(** ** The report of equal objects *)

Lemma Forall2_rev_both {A B : Type} (R : A -> B -> Prop) (l : list A)
    (l' : list B) :
  Forall2 R l l' -> Forall2 R (rev l) (rev l').
Proof.
  induction 1 as [|x x' l l' Hx _ IH]; simpl; [constructor|].
  apply Forall2_app; [exact IH|]. constructor; [exact Hx | constructor].
Qed.

Section SameObjects.
Variables w w' : World.

Lemma same_object_total (r r' : ref) :
  same_object w w' r r' -> total_of w r = total_of w' r'.
Proof.
  intros (obj & H & H'). unfold total_of. now rewrite H, H'.
Qed.

Lemma same_object_row (r r' : ref) :
  same_object w w' r r' -> report_row w r = report_row w' r'.
Proof.
  intros (obj & H & H'). unfold report_row. now rewrite H, H'.
Qed.

Lemma same_object_rows (l l' : list ref) :
  Forall2 (same_object w w') l l' -> report_rows w l = report_rows w' l'.
Proof.
  induction 1 as [|r r' l l' Hr _ IH]; simpl; [reflexivity|].
  now rewrite (same_object_row r r' Hr), IH.
Qed.

Lemma setdefault_append_same (d d' : list (float * list ref)) (k : float)
    (r r' : ref) :
  Forall2 (same_entry w w') d d' -> same_object w w' r r' ->
  Forall2 (same_entry w w') (Dict.setdefault_append PrimFloat.eqb d k r)
            (Dict.setdefault_append PrimFloat.eqb d' k r').
Proof.
  intros Hd Hr.
  induction Hd as [|[t g] [t' g'] d d' [Ht Hg] Hd IH]; simpl.
  - constructor; [|constructor]. split; [reflexivity|]. now repeat constructor.
  - simpl in Ht, Hg. subst t'.
    destruct (PrimFloat.eqb t k).
    + constructor; [|exact Hd]. split; [reflexivity|]. simpl.
      apply Forall2_app; [exact Hg | now repeat constructor].
    + constructor; [now split | exact IH].
Qed.

Lemma grouping_same (l l' : list ref) :
  Forall2 (same_object w w') l l' ->
  forall acc acc',
    Forall2 (same_entry w w') acc acc' -> Forall2 (same_entry w w') (grouping w l acc) (grouping w' l' acc').
Proof.
  induction 1 as [|r r' l l' Hr _ IH]; intros acc acc' Hacc; simpl;
    [exact Hacc|].
  apply IH. rewrite (same_object_total r r' Hr).
  now apply setdefault_append_same.
Qed.

Lemma insert_sorted_same (x x' : float * list ref)
    (l l' : list (float * list ref)) :
  same_entry w w' x x' -> Forall2 (same_entry w w') l l' ->
  Forall2 (same_entry w w')
    (Py.insert_sorted (fun a b => PrimFloat.ltb (fst a) (fst b)) x l)
    (Py.insert_sorted (fun a b => PrimFloat.ltb (fst a) (fst b)) x' l').
Proof.
  intros Hx Hl.
  induction Hl as [|y y' l l' Hy Hl IH]; simpl.
  - constructor; [exact Hx | constructor].
  - destruct Hx as [Hx1 Hx2], Hy as [Hy1 Hy2]. rewrite <- Hx1, <- Hy1.
    destruct (PrimFloat.ltb (fst x) (fst y)).
    + constructor; [now split|]. constructor; [now split | exact Hl].
    + constructor; [now split | exact IH].
Qed.

Lemma descending_same (d d' : list (float * list ref)) :
  Forall2 (same_entry w w') d d' ->
  Forall2 (same_entry w w') (DonorDBM.descending d) (DonorDBM.descending d').
Proof.
  intros Hd. unfold DonorDBM.descending, Py.sorted.
  assert (Hs : forall acc acc',
             Forall2 (same_entry w w') acc acc' ->
             Forall2 (same_entry w w')
               (fold_left
                  (fun acc x =>
                     Py.insert_sorted
                       (fun a b => PrimFloat.ltb (fst a) (fst b)) x acc)
                  d acc)
               (fold_left
                  (fun acc x =>
                     Py.insert_sorted
                       (fun a b => PrimFloat.ltb (fst a) (fst b)) x acc)
                  d' acc')).
  { induction Hd as [|x x' d d' Hx _ IH]; intros acc acc' Hacc; simpl;
      [exact Hacc|].
    apply IH. now apply insert_sorted_same. }
  apply Forall2_rev_both, Hs. constructor.
Qed.

Lemma concat_groups_same (d d' : list (float * list ref)) :
  Forall2 (same_entry w w') d d' ->
  Forall2 (same_object w w') (List.concat (map snd d)) (List.concat (map snd d')).
Proof.
  induction 1 as [|e e' d d' [_ He] _ IH]; simpl; [constructor|].
  now apply Forall2_app.
Qed.

(** Collections whose donors are, place by place, equal objects have
    the same report. *)
Lemma report_same_objects (self self' : DonorDB) :
  Forall2 (same_object w w') (DonorDBM.donors self) (DonorDBM.donors self') ->
  DonorDBM.get_donor_report w self = DonorDBM.get_donor_report w' self'.
Proof.
  intros H.
  assert (Hlive : DB_live w self).
  { unfold DB_live. clear -H.
    induction H as [|r r' l l' (obj & Hr & _) _ IH]; constructor;
      [now exists obj | exact IH]. }
  assert (Hlive' : DB_live w' self').
  { unfold DB_live. clear -H.
    induction H as [|r r' l l' (obj & _ & Hr) _ IH]; constructor;
      [now exists obj | exact IH]. }
  rewrite !get_donor_report_rows.
  rewrite (group_by_total_live w self Hlive),
          (group_by_total_live w' self' Hlive').
  cbn [bind].
  rewrite (same_object_rows _ _
             (concat_groups_same _ _
                (descending_same _ _
                   (grouping_same _ _ H [] [] (Forall2_nil _))))).
  reflexivity.
Qed.
End SameObjects.

Lemma round_trip_same_objects (w w2 : World) (items data : list (string * ref))
    (doc : snapshot) :
  Forall (fun kv => exists obj, load w (snd kv) = Ok obj /\ DonorM.name obj = fst kv)
    items ->
  doc = map (fun kv => (fst kv, donations_at w (snd kv))) items ->
  Forall2
    (fun d kv =>
       fst kv = fst d /\ load w2 (snd kv) = Ok (mkDonor (fst d) (snd d)))
    doc data ->
  Forall2 (same_object w w2) (map snd items) (map snd data).
Proof.
  intros Hkeyed -> HF. revert data HF.
  induction Hkeyed as [|[k r] items (obj & Hobj & Hname) _ IH];
    intros data HF; inversion HF as [|? [k' r'] ? data' [Hk Hl] HF']; subst;
    simpl; constructor.
  - exists obj. split; [exact Hobj|].
    simpl in *. unfold donations_at in Hl. rewrite Hobj in Hl.
    rewrite Hl. destruct obj as [n l]. unfold DonorM.name in Hname.
    simpl in *. now subst.
  - now apply IH.
Qed.

(** X15. A collection whose donors are stored under their own names has
    the same report after [save_to_file] and [load_from_file] as
    before: the same text, or the same exception. *)
Theorem report_after_round_trip :
  forall (w : World) (self : DonorDB) (filename : string) (w1 : World),
    DB_ok w self ->
    DB_keyed w self ->
    DonorDBM.save_to_file w self filename = Ok w1 ->
    exists (loaded : DonorDB) (w2 : World),
      DonorDBM.load_from_file w1 filename = Ok (loaded, w2) /\
      DonorDBM.get_donor_report w2 loaded = DonorDBM.get_donor_report w self.
Proof.
  intros w self filename w1 Hok Hkeyed Hsave.
  assert (Hfile : Dict.get String.eqb (files w1) filename
                  = Some (document_of w self)).
  { unfold DonorDBM.save_to_file in Hsave.
    rewrite (save_document w self Hok) in Hsave. cbn [bind] in Hsave.
    destruct (existsb (String.eqb filename) (unwritable w)); [discriminate|].
    injection Hsave as <-. simpl. apply get_set_eq, String.eqb_eq. }
  destruct (load_from_file_items w1 filename _ Hfile)
    as (loaded & w2 & Hload & Hitems & _).
  exists loaded, w2. split; [exact Hload|].
  symmetry. apply report_same_objects.
  unfold json_load in Hitems.
  rewrite of_pairs_NoDup in Hitems.
  - apply (round_trip_same_objects w w2 (donor_data self) (donor_data loaded)
             (document_of w self));
      [exact Hkeyed | reflexivity | exact Hitems].
  - unfold document_of. rewrite map_map. simpl. apply Hok.
Qed.

Lemma report_after_round_trip_witness :
  exists (loaded : DonorDB) (w2 : World),
    DonorDBM.load_from_file example_saved "donors.json" = Ok (loaded, w2) /\
    DonorDBM.get_donor_report w2 loaded =
    DonorDBM.get_donor_report example_world example_db.
Proof.
  exact (report_after_round_trip example_world example_db "donors.json"%string
           example_saved example_db_ok example_db_keyed eq_refl).
Defined.

(** ** The empty collection, and a donation seen through the collection *)

(** X16. [DonorDB()] is the empty collection: it finds no donor, its
    report is returned and has no data line, and saved and loaded it is
    the empty collection again, with no Donor created. *)
Theorem empty_collection :
  forall w : World,
    let empty := {| donor_data := [] |} in
    DonorDBM.init w None = Ok empty /\
    (forall name : string, DonorDBM.get_donor empty name = None) /\
    DonorDBM.get_donor_report w empty =
      Ok (DonorDBM.report_head ++ Fmt.LF ++ Fmt.LF)%string /\
    (forall (filename : string) (w1 : World),
        DonorDBM.save_to_file w empty filename = Ok w1 ->
        DonorDBM.load_from_file w1 filename = Ok (empty, w1) /\
        heap w1 = heap w).
Proof.
  intros w empty.
  split; [reflexivity|]. split; [reflexivity|]. split; [reflexivity|].
  intros filename w1 Hsave.
  unfold DonorDBM.save_to_file in Hsave. simpl in Hsave.
  destruct (existsb (String.eqb filename) (unwritable w)); [discriminate|].
  injection Hsave as <-.
  split; [|reflexivity].
  rewrite (load_from_file_exact _ filename []);
    [|apply get_set_eq, String.eqb_eq].
  simpl. now rewrite app_nil_r.
Qed.

(** X17. A donation added to the Donor that [get_donor] returns is held
    by the collection: under that name it has the donations there were
    and the new amount at the end, and the names that hold another
    Donor keep their donations. *)
Theorem add_donation_seen_by_collection :
  forall (w : World) (self : DonorDB) (name : string) (donor : ref)
         (obj : Donor) (amount : float),
    DonorDBM.get_donor self name = Some donor ->
    load w donor = Ok obj ->
    exists w' : World,
      add_donation w donor amount = Ok w' /\
      donations_of w' self name = Some (donations obj ++ [amount]) /\
      (forall other : string,
          DonorDBM.get_donor self other <> Some donor ->
          donations_of w' self other = donations_of w self other).
Proof.
  intros w self name donor obj amount Hget Hobj.
  destruct (add_donation_load w donor obj amount Hobj)
    as (w' & Hadd & Hload & Hframe & _).
  exists w'. split; [exact Hadd|]. split.
  - unfold donations_of. now rewrite Hget, Hload.
  - intros other Hother. unfold donations_of.
    destruct (DonorDBM.get_donor self other) as [r|]; [|reflexivity].
    rewrite Hframe; [reflexivity|]. congruence.
Qed.

Lemma add_donation_seen_by_collection_witness :
  exists w' : World,
    add_donation example_world 1 25%float = Ok w' /\
    donations_of w' example_db "Alice" =
      Some ([100%float; 200%float] ++ [25%float]) /\
    (forall other : string,
        DonorDBM.get_donor example_db other <> Some 1 ->
        donations_of w' example_db other =
        donations_of example_world example_db other).
Proof.
  exact (add_donation_seen_by_collection example_world example_db
           "Alice"%string 1 (mkDonor "Alice" [100%float; 200%float])
           25%float eq_refl eq_refl).
Defined.
